(** * Job scraper pipeline: adapters, relevance analyzer, aggregation

    A shallow embedding of the Python sources
      indeed_scraper.py, rozee_scraper.py, linkedin_scraper.py,
      llm_analyzer.py and main.py
    together with the properties the specification states about them, and
    further properties of the code.

    Conventions.
    - Python dictionaries are finite maps [gmap string json]; Python sets of
      strings are [gset string].
    - Code that can raise returns a [res]; [try]/[except] is written out with
      the class test the handler performs.
    - Everything the program reads from the outside (web pages, the inference
      endpoint, the stop flag) is an explicit argument, so that two runs
      "against the same responses" are two applications to the same value.
    - Side effects that the specification talks about (page fetches, sleeps,
      closing the browser, adapter invocations) are recorded in a trace. *)

From Stdlib Require Import Ascii String QArith Qcanon.
From stdpp Require Import base numbers list strings gmap pretty sorting.

Local Open Scope string_scope.
Local Open Scope list_scope.
Local Open Scope nat_scope.

(** ** Exceptions *)

Module Py.

(** The exception classes the sources mention or can meet.  [KeyboardInterrupt]
    and [SystemExit] derive from [BaseException] only; every other class
    derives from [Exception]. *)
Inductive exn : Type :=
  | KeyboardInterrupt
  | SystemExit
  | ReadTimeout                  (* httpx.ReadTimeout *)
  | TimeoutException             (* selenium.common.exceptions *)
  | NoSuchElementException       (* selenium.common.exceptions *)
  | WebDriverException           (* any other selenium failure *)
  | TypeError
  | AttributeError
  | ValueError                   (* json.JSONDecodeError is a ValueError *)
  | KeyError (key : string)
  | OtherError (msg : string)
  | HTTPException (status : Z) (detail : string).

(** [isinstance(e, Exception)] : what [except Exception] catches. *)
Definition is_Exception (e : exn) : bool :=
  match e with
  | KeyboardInterrupt | SystemExit => false
  | _ => true
  end.

Definition is_KeyboardInterrupt (e : exn) : bool :=
  match e with KeyboardInterrupt => true | _ => false end.

Definition is_NoSuchElement (e : exn) : bool :=
  match e with NoSuchElementException => true | _ => false end.

Definition is_TimeoutException (e : exn) : bool :=
  match e with TimeoutException => true | _ => false end.

Definition is_ReadTimeout (e : exn) : bool :=
  match e with ReadTimeout => true | _ => false end.

(** Result of a computation that may raise. *)
Inductive res (A : Type) : Type :=
  | Ok (a : A)
  | Raise (e : exn).
Global Arguments Ok {A} a.
Global Arguments Raise {A} e.

Definition bind {A B} (x : res A) (f : A → res B) : res B :=
  match x with
  | Ok a => f a
  | Raise e => Raise e
  end.

(** JSON documents as [json.loads] produces them.  Numbers are exact
    rationals: the program only compares and forwards them. *)
#[warnings="-register-all"]
Inductive json : Type :=
  | JNull
  | JBool (b : bool)
  | JNum (q : Qc)
  | JStr (s : string)
  | JArr (items : list json)
  | JObj (fields : list (string * json)).

Definition JInt (z : Z) : json := JNum (Qc_of_Z z).

(** The numeric value of a number ([bool] is a subclass of [int]). *)
Definition as_number (v : json) : option Qc :=
  match v with
  | JNum q => Some q
  | JBool true => Some 1%Qc
  | JBool false => Some 0%Qc
  | _ => None
  end.

(** [d.get(k, dflt)] on a dictionary. *)
Definition dict_get (d : gmap string json) (k : string) (dflt : json) : json :=
  default dflt (d !! k).

(** [s.replace(c, t)] for a one-character pattern. *)
Fixpoint replace_char (c : ascii) (t : string) (s : string) : string :=
  match s with
  | EmptyString => EmptyString
  | String a s' =>
      if Ascii.eqb a c then t +:+ replace_char c t s'
      else String a (replace_char c t s')
  end.

Definition startswith (p s : string) : bool := String.prefix p s.

Definition ascii_lower (c : ascii) : ascii :=
  let n := nat_of_ascii c in
  if (65 <=? n)%nat && (n <=? 90)%nat then ascii_of_nat (n + 32) else c.

Definition ascii_upper (c : ascii) : ascii :=
  let n := nat_of_ascii c in
  if (97 <=? n)%nat && (n <=? 122)%nat then ascii_of_nat (n - 32) else c.

Definition is_alpha (c : ascii) : bool :=
  let n := nat_of_ascii c in
  ((65 <=? n)%nat && (n <=? 90)%nat) || ((97 <=? n)%nat && (n <=? 122)%nat).

(** [s.lower()] and [s.title()] on ASCII text. *)
Fixpoint py_lower (s : string) : string :=
  match s with
  | EmptyString => EmptyString
  | String c s' => String (ascii_lower c) (py_lower s')
  end.

Fixpoint title_from (inside_word : bool) (s : string) : string :=
  match s with
  | EmptyString => EmptyString
  | String c s' =>
      if is_alpha c then
        String (if inside_word then ascii_lower c else ascii_upper c)
          (title_from true s')
      else String c (title_from false s')
  end.

Definition py_title (s : string) : string := title_from false s.

(** What the outside world hands back to a call that may fail. *)
Inductive load (A : Type) : Type :=
  | Loaded (a : A)
  | LoadFails (e : exn).
Global Arguments Loaded {A} a.
Global Arguments LoadFails {A} e.

(** [x or dflt] for an optional string: [None] and the empty string are falsy. *)
Definition str_or (x : option string) (dflt : string) : string :=
  match x with
  | Some s => if String.eqb s "" then dflt else s
  | None => dflt
  end.

Definition nonempty (x : option string) : bool :=
  match x with
  | Some s => negb (String.eqb s "")
  | None => false
  end.

Fixpoint is_substring (p s : string) : bool :=
  String.prefix p s ||
  match s with
  | EmptyString => false
  | String _ s' => is_substring p s'
  end.

Fixpoint assoc (fields : list (string * json)) (k : string) : option json :=
  match fields with
  | [] => None
  | (k', v) :: rest => if String.eqb k' k then Some v else assoc rest k
  end.

(** [item in container] for a string [item]. *)
Definition py_in (item : string) (container : json) : res bool :=
  match container with
  | JObj fields => Ok (bool_decide (is_Some (assoc fields item)))
  | JArr items =>
      Ok (existsb (λ v, match v with JStr s => String.eqb s item | _ => false end)
            items)
  | JStr s => Ok (is_substring item s)
  | _ => Raise TypeError
  end.

(** [container[key]] for a string [key]. *)
Definition py_getitem (container : json) (key : string) : res json :=
  match container with
  | JObj fields =>
      match assoc fields key with
      | Some v => Ok v
      | None => Raise (KeyError key)
      end
  | _ => Raise TypeError
  end.

(** [obj.get(key, dflt)]: only dictionaries have the method. *)
Definition py_get (obj : json) (key : string) (dflt : json) : res json :=
  match obj with
  | JObj fields => Ok (default dflt (assoc fields key))
  | _ => Raise AttributeError
  end.

(** [len(v)]. *)
Definition py_len (v : json) : res nat :=
  match v with
  | JStr s => Ok (String.length s)
  | JArr items => Ok (length items)
  | JObj fields => Ok (length fields)
  | _ => Raise TypeError
  end.

(** [a < b].  Numbers (and booleans) are ordered by value, strings by code
    point; [None] and dictionaries are never ordered, and neither are values
    of different kinds.  Arrays, which Python orders lexicographically, are
    left unordered here: no score of the pipeline is an array. *)
Definition py_lt (a b : json) : res bool :=
  match as_number a, as_number b with
  | Some x, Some y => Ok (bool_decide (x < y)%Qc)
  | _, _ =>
      match a, b with
      | JStr s, JStr t => Ok (String.ltb s t)
      | _, _ => Raise TypeError
      end
  end.

Section Sort.
Context {A : Type} (key : A → json).

(** [list.sort(key=..., reverse=True)].  CPython reverses the list, sorts
    it ascending with a stable sort that only uses [<] on the keys, and
    reverses it again; a comparison that raises aborts the sort.  The
    ascending sort is written as a straight insertion sort: an item moves
    behind the items whose key is strictly smaller and stops at the first
    that is not. *)
Fixpoint insert_sorted (x : A) (l : list A) : res (list A) :=
  match l with
  | [] => Ok [x]
  | y :: l' =>
      bind (py_lt (key y) (key x)) (λ smaller,
      if smaller then bind (insert_sorted x l') (λ r, Ok (y :: r))
      else Ok (x :: y :: l'))
  end.

Fixpoint sort_ascending (l : list A) : res (list A) :=
  match l with
  | [] => Ok []
  | x :: l' => bind (sort_ascending l') (insert_sorted x)
  end.

Definition list_sort_reverse (l : list A) : res (list A) :=
  bind (sort_ascending (reverse l)) (λ r, Ok (reverse r)).
End Sort.

(** [JobRequest] of main.py and llm_analyzer.py. *)
Record JobRequest : Type := {
  position : string;
  experience : string;
  salary : string;
  jobNature : string;
  location : string;
  skills : string;
  sources : list string
}.

(** Effects the specification speaks about. *)
Inductive event : Type :=
  | EvSleep (seconds : Z)            (* time.sleep / asyncio.sleep *)
  | EvGet (url : string)             (* navigation to a page of results *)
  | EvDetail (url : string)          (* navigation to the page of one job *)
  | EvBrowserStart
  | EvBrowserQuit
  | EvPost (attempt : nat)           (* chat request of the analyzer *)
  | EvProbe                          (* test_connection *)
  | EvAdapter (source : string).     (* an adapter entry point is called *)

(** Computations of the orchestration layer: they may run out of fuel
    ([None]), return or raise, and leave a trace. *)
Definition M (A : Type) : Type := option (res A * list event).

Definition ret {A} (a : A) : M A := Some (Ok a, []).
Definition throw {A} (e : exn) : M A := Some (Raise e, []).
Definition emit (ev : event) : M unit := Some (Ok tt, [ev]).

Definition after {A} (tr : list event) (m : M A) : M A :=
  match m with
  | None => None
  | Some (r, tr') => Some (r, tr ++ tr')
  end.

Definition mbind {A B} (m : M A) (k : A → M B) : M B :=
  match m with
  | None => None
  | Some (Ok a, tr) => after tr (k a)
  | Some (Raise e, tr) => Some (Raise e, tr)
  end.

(** [try: m  except C: handler] where [catches] is the class test. *)
Definition try_except {A} (m : M A) (catches : exn → bool) (handler : exn → M A)
    : M A :=
  match m with
  | Some (Raise e, tr) => if catches e then after tr (handler e) else m
  | _ => m
  end.

End Py.
Import Py.

Notation "'let*' x ':=' m 'in' k" := (mbind m (λ x, k))
  (at level 10, x pattern, m at level 100, k at level 200).

(** ** Regular expressions (the fragment of [re] the normalizer uses)

    A backtracking matcher with Python's priorities: alternatives are tried
    left to right, [?], [*] and [+] are greedy, and the first successful path
    wins.  The patterns have exactly one capturing group. *)

Module Re.

Inductive cset : Type :=
  | Any                          (* . under DOTALL *)
  | Digit                        (* \d *)
  | Space                        (* \s *)
  | Chr (c : ascii)
  | Either (a b : cset).

Inductive regex : Type :=
  | Eps
  | One (cs : cset)
  | Lit (c : ascii)              (* a literal, folded under IGNORECASE *)
  | Cat (r1 r2 : regex)
  | Opt (r : regex)              (* r?  *)
  | Star (r : regex)             (* r*  *)
  | Group (r : regex).           (* (r) *)

Definition Plus (r : regex) : regex := Cat r (Star r).

Fixpoint Str (s : string) : regex :=
  match s with
  | EmptyString => Eps
  | String c s' => Cat (Lit c) (Str s')
  end.

Definition is_digit (c : ascii) : bool :=
  let n := nat_of_ascii c in (48 <=? n)%nat && (n <=? 57)%nat.

(** [\s] on the ASCII range: space, \t \n \v \f \r and the separators
    \x1c..\x1f. *)
Definition is_space (c : ascii) : bool :=
  let n := nat_of_ascii c in
  (n =? 32)%nat || ((9 <=? n)%nat && (n <=? 13)%nat)
  || ((28 <=? n)%nat && (n <=? 31)%nat).

Definition lower (c : ascii) : ascii := ascii_lower c.

Fixpoint in_cset (cs : cset) (c : ascii) : bool :=
  match cs with
  | Any => true
  | Digit => is_digit c
  | Space => is_space c
  | Chr d => Ascii.eqb (lower c) (lower d)
  | Either a b => in_cset a c || in_cset b c
  end.

(** The text consumed between [s] and its suffix [s']. *)
Definition consumed (s s' : string) : string :=
  substring 0 (String.length s - String.length s') s.

(** [run r s cap k]: match [r] at the start of [s]; [k] receives the rest of
    the input and the text of the group.  Returns the group and the rest of
    the input after the whole match. *)
Fixpoint run (r : regex) (s : string) (cap : string)
    (k : string → string → option (string * string)) : option (string * string) :=
  match r with
  | Eps => k s cap
  | One cs =>
      match s with
      | String c s' => if in_cset cs c then k s' cap else None
      | EmptyString => None
      end
  | Lit d =>
      match s with
      | String c s' => if Ascii.eqb (lower c) (lower d) then k s' cap else None
      | EmptyString => None
      end
  | Cat r1 r2 => run r1 s cap (λ s1 cap1, run r2 s1 cap1 k)
  | Opt r1 =>
      match run r1 s cap k with
      | Some m => Some m
      | None => k s cap
      end
  | Star r1 =>
      (fix loop (n : nat) (s : string) (cap : string) {struct n} :=
         match
           run r1 s cap (λ s1 cap1,
             if (String.length s1 <? String.length s)%nat then
               match n with
               | O => None
               | S n' => loop n' s1 cap1
               end
             else None)
         with
         | Some m => Some m
         | None => k s cap
         end) (String.length s) s cap
  | Group r1 => run r1 s cap (λ s1 _, k s1 (consumed s s1))
  end.

Definition match_here (r : regex) (s : string) : option (string * string) :=
  run r s "" (λ rest cap, Some (cap, rest)).

(** [re.findall(r, s, re.IGNORECASE)] for a pattern with one group: the group
    of every non-overlapping match, scanning left to right. *)
Fixpoint findall_from (fuel : nat) (r : regex) (s : string) : list string :=
  match fuel with
  | O => []
  | S fuel' =>
      match match_here r s with
      | Some (cap, rest) =>
          if (String.length rest <? String.length s)%nat
          then cap :: findall_from fuel' r rest
          else cap :: match s with
                      | String _ s' => findall_from fuel' r s'
                      | EmptyString => []
                      end
      | None =>
          match s with
          | String _ s' => findall_from fuel' r s'
          | EmptyString => []
          end
      end
  end.

Definition findall (r : regex) (s : string) : list string :=
  findall_from (S (String.length s)) r s.

(** [re.search(r, s).group()] for a pattern wrapped in one group: the text of
    the leftmost match, [None] when there is none. *)
Definition search (r : regex) (s : string) : option string :=
  head (findall r s).

End Re.

(** ** Job normalizer: [IndeedScraper.extract_experience] *)

Module Normalizer.
Import Re.

(** [\d+[\+]?\s*(?:-\s*\d+)?] *)
Definition years_count : regex :=
  Cat (Plus (One Digit))
    (Cat (Opt (One (Chr "+")))
       (Cat (Star (One Space))
          (Opt (Cat (Lit "-") (Cat (Star (One Space)) (Plus (One Digit))))))).

(** [years?] *)
Definition years_word : regex := Cat (Str "year") (Opt (Lit "s")).

Definition ws : regex := Star (One Space).

Definition experience_patterns : list regex :=
  [ (* (\d+[\+]?\s*(?:-\s*\d+)?)\s*(?:years?)?\s*(?:of)?\s*experience *)
    Cat (Group years_count)
      (Cat ws (Cat (Opt years_word) (Cat ws (Cat (Opt (Str "of"))
         (Cat ws (Str "experience"))))));
    (* experience[\s\:]+(\d+[\+]?\s*(?:-\s*\d+)?\s*years?) *)
    Cat (Str "experience")
      (Cat (Plus (One (Either Space (Chr ":"))))
         (Group (Cat years_count (Cat ws years_word))));
    (* (\d+[\+]?\s*(?:-\s*\d+)?)\s*years?[\s\-]*experience *)
    Cat (Group years_count)
      (Cat ws (Cat years_word
         (Cat (Star (One (Either Space (Chr "-")))) (Str "experience"))));
    (* minimum[\s\:]+(\d+[\+]?\s*(?:-\s*\d+)?)\s*years? *)
    Cat (Str "minimum")
      (Cat (Plus (One (Either Space (Chr ":"))))
         (Cat (Group years_count) (Cat ws years_word))) ].

Fixpoint first_experience (patterns : list regex) (text : string) : string :=
  match patterns with
  | [] => "Not specified"
  | pattern :: rest =>
      match findall pattern text with
      | m :: _ => m +:+ " years"
      | [] => first_experience rest text
      end
  end.

Definition extract_experience (text : string) : string :=
  first_experience experience_patterns text.

End Normalizer.

(** ** Relevance analyzer: [OllamaAnalyzer] *)

Module Analyzer.

(** How a chat request to the inference endpoint can end.  The endpoint can
    make the client raise (a read timeout or any other transport error) or
    answer with a status code and a body; [body] is what [response.json()]
    yields, [None] when the body is not JSON. *)
Inductive failure : Type :=
  | ReadTimedOut
  | TransportError (msg : string).

Definition exn_of (f : failure) : exn :=
  match f with
  | ReadTimedOut => ReadTimeout
  | TransportError msg => OtherError msg
  end.

Inductive reply : Type :=
  | PostFails (f : failure)
  | Response (status : Z) (body : option json).

Definition max_retries : nat := 3.
Definition initial_retry_delay : Z := 5.

(** [r'\{.*\}'] with [re.DOTALL]: from the first opening brace to the last
    closing brace. *)
Definition json_span : Re.regex :=
  Re.Group (Re.Cat (Re.Lit "{") (Re.Cat (Re.Star (Re.One Re.Any)) (Re.Lit "}"))).

(** How one iteration of the retry loop ends. *)
Inductive control (A : Type) : Type :=
  | Return (a : A)               (* [return] inside the loop *)
  | Next                         (* falls through to the next iteration *)
  | Propagate (e : exn).         (* an exception no handler matched *)
Global Arguments Return {A} a.
Global Arguments Next {A}.
Global Arguments Propagate {A} e.

Section WithParser.

(** [json.loads] on the text of the span; [None] when it raises. *)
Variable json_loads : string → option json.

(** Lines 168-182: the body of the inner [try].  [Ok (Some v)] is the
    [return], [Ok None] one of the logged warnings. *)
Definition read_verdict (body : option json) : res (option (json * json)) :=
  bind (match body with Some j => Ok j | None => Raise ValueError end)
    (λ json_data,
  bind (py_in "message" json_data) (λ has_message,
  if has_message then
    bind (py_getitem json_data "message") (λ message,
    bind (py_in "content" message) (λ has_content,
    if has_content then
      bind (py_getitem message "content") (λ content,
      bind (match content with
            | JStr text => Ok (Re.search json_span text)
            | _ => Raise TypeError
            end) (λ json_match,
      match json_match with
      | Some span =>
          bind (match json_loads span with
                | Some a => Ok a
                | None => Raise ValueError
                end) (λ analysis,
          bind (py_get analysis "relevance_score" (JInt 0)) (λ score,
          bind (py_get analysis "matched_skills" (JArr [])) (λ skills,
          Ok (Some (score, skills)))))
      | None => Ok None
      end))
    else Ok None))
  else Ok None)).

(** Lines 147-198: one iteration of [for attempt in range(max_retries)].
    Returns how the iteration ends, the retry delay after it and the events
    it produced. *)
Definition one_attempt (attempt : nat) (retry_delay : Z) (r : reply)
    : control (json * json) * Z * list event :=
  match r with
  | Response status body =>
      if (status =? 200)%Z then
        match read_verdict body with
        | Ok (Some v) => (Return v, retry_delay, [EvPost attempt])
        | Ok None => (Next, retry_delay, [EvPost attempt])
        | Raise e =>
            (* except Exception (inner), then the two outer handlers *)
            if is_Exception e then (Next, retry_delay, [EvPost attempt])
            else (Propagate e, retry_delay, [EvPost attempt])
        end
      else (Next, retry_delay, [EvPost attempt])
  | PostFails f =>
      let e := exn_of f in
      if is_ReadTimeout e then
        if (attempt <? max_retries - 1)%nat then
          (Next, (retry_delay * 2)%Z, [EvPost attempt; EvSleep retry_delay])
        else (Next, retry_delay, [EvPost attempt])
      else if is_Exception e then (Next, retry_delay, [EvPost attempt])
      else (Propagate e, retry_delay, [EvPost attempt])
  end.

(** The loop over the attempts still to make, then the fallback
    [return 0, []]. *)
Fixpoint attempt_loop (endpoint : nat → reply) (attempts : list nat)
    (retry_delay : Z) : res (json * json) * Z * list event :=
  match attempts with
  | [] => (Ok (JInt 0, JArr []), retry_delay, [])
  | attempt :: rest =>
      match one_attempt attempt retry_delay (endpoint attempt) with
      | (Return v, d, evs) => (Ok v, d, evs)
      | (Propagate e, d, evs) => (Raise e, d, evs)
      | (Next, d, evs) =>
          let '(r, d', evs') := attempt_loop endpoint rest d in
          (r, d', evs ++ evs')
      end
  end.

(** [analyze_job]: the value returned (or the exception raised), the retry
    delay at the end and the trace.  The job and the requirements only enter
    the prompt; [endpoint n] is how the endpoint treats the request of attempt
    [n] for this prompt. *)
Definition analyze_job_run (job : gmap string json) (requirements : JobRequest)
    (endpoint : nat → reply) : res (json * json) * Z * list event :=
  attempt_loop endpoint (seq 0 max_retries) initial_retry_delay.

Definition analyze_job (job : gmap string json) (requirements : JobRequest)
    (endpoint : nat → reply) : res (json * json) :=
  (analyze_job_run job requirements endpoint).1.1.

(** [str(e)]: the text of an exception, which the program only stores. *)
Variable exn_text : exn → string.

(** Lines 220-258: [analyze_single_job], the body run under the semaphore. *)
Definition analyze_single_job (job : gmap string json)
    (requirements : JobRequest) (endpoint : nat → reply)
    : res (gmap string json) :=
  let attempt :=
    bind (analyze_job job requirements endpoint) (λ verdict,
      let result :=
        <["matched_skills" := verdict.2]> (<["relevance_score" := verdict.1]> job) in
      (* the log line evaluates len(skills) *)
      bind (py_len verdict.2) (λ _, Ok result)) in
  match attempt with
  | Ok result => Ok result
  | Raise e =>
      if is_Exception e then
        Ok (<["error" := JStr (exn_text e)]>
              (<["matched_skills" := JArr []]>
                 (<["relevance_score" := JInt 0]> job)))
      else Raise e
  end.

Definition batch_size : nat := 5.

(** [range(0, n, batch_size)]. *)
Definition batch_starts (n : nat) : list nat :=
  map (λ k, k * batch_size) (seq 0 ((n + batch_size - 1) / batch_size)).

Definition sort_key (x : gmap string json) : json :=
  dict_get x "relevance_score" (JInt 0).

Section Batch.
(** The jobs of one call, the replies of the endpoint to the requests made
    for the job at each position, and the value of [self.running] read at
    the head of the iteration that starts at each index. *)
Variable jobs : list (gmap string json).
Variable requirements : JobRequest.
Variable llm : nat → nat → reply.
Variable running : nat → bool.

(** Lines 262-283.  [asyncio.gather] returns the results in task order,
    whatever the interleaving under the semaphore; the pause between
    batches does not touch the results. *)
Fixpoint batch_loop (starts : list nat) (analyzed_jobs : list (gmap string json))
    : list (gmap string json) :=
  match starts with
  | [] => analyzed_jobs
  | i :: rest =>
      if negb (running i) then analyzed_jobs
      else
        let batch := take batch_size (drop i jobs) in
        let batch_results :=
          imap (λ k job, analyze_single_job job requirements (llm (i + k))) batch in
        let successful_results :=
          omap (λ r, match r with Ok d => Some d | Raise _ => None end)
            batch_results in
        batch_loop rest (analyzed_jobs ++ successful_results)
  end.

Definition analyze_jobs_batch : res (list (gmap string json)) :=
  list_sort_reverse sort_key (batch_loop (batch_starts (length jobs)) []).
End Batch.

(** [test_connection]: true iff the probe is answered with status 200. *)
Definition test_connection (probe : reply) : bool :=
  match probe with
  | Response status _ => (status =? 200)%Z
  | PostFails _ => false          (* except Exception: return False *)
  end.

End WithParser.
End Analyzer.

(** ** Source adapter: indeed_scraper.py *)

Module Indeed.
Import Normalizer.

Definition base_url : string := "https://pk.indeed.com".

(** A tag of the parsed page: its stripped text and its [href] attribute. *)
Record element : Type := { text : string; href : option string }.

(** What [select_one] gives for one selector on one card. *)
Inductive found : Type :=
  | Hit (e : element)
  | Miss
  | Fault (e : exn).

(** A job card answers CSS selectors. *)
Definition card : Type := string → found.

(** [job.select_one(a) or job.select_one(b) or ...]: a tag is truthy, so the
    first hit wins and later selectors are not evaluated. *)
Fixpoint select_first (job : card) (selectors : list string) : res (option element) :=
  match selectors with
  | [] => Ok None
  | sel :: rest =>
      match job sel with
      | Hit e => Ok (Some e)
      | Miss => select_first job rest
      | Fault e => Raise e
      end
  end.

(** A page of results, seen through the three [find_all] queries. *)
Record results_page : Type := {
  job_seen_beacon : list card;
  cardOutline : list card;
  organicJob : list card
}.

Definition job_cards (page : results_page) : list card :=
  match job_seen_beacon page with
  | _ :: _ => job_seen_beacon page
  | [] =>
      match cardOutline page with
      | _ :: _ => cardOutline page
      | [] => organicJob page
      end
  end.

(** The site as one run meets it: whether the browser starts, the page
    served at the n-th navigation to a results URL, and for the page of a
    job the text of its description block when there is one. *)
Record site : Type := {
  start : option exn;
  results : nat → string → load results_page;
  description_page : string → load (option string)
}.

Record state : Type := {
  jobs : list (gmap string json);
  processed_count : nat;
  page_num : nat;
  first_page_retried : bool;
  navigations : nat;               (* results pages requested so far *)
  trace : list event
}.

Definition log (ev : event) (st : state) : state :=
  {| jobs := jobs st; processed_count := processed_count st;
     page_num := page_num st; first_page_retried := first_page_retried st;
     navigations := navigations st; trace := trace st ++ [ev] |}.

Section Scrape.
Variable web : site.
Variable max_jobs : nat.

(** [get_job_description]. *)
Definition get_job_description (full_link : string) : res string :=
  match description_page web full_link with
  | Loaded (Some description) => Ok description
  | Loaded None => Ok "No description available"
  | LoadFails e =>
      if is_Exception e then Ok "Error fetching description" else Raise e
  end.

(** Lines 154-223: the body of the [try] for one card: the exception that
    leaves it, if any, and the state at that point. *)
Definition process_card (job : card) (st : state) : option exn * state :=
  match select_first job ["h2.jobTitle"; "a.jobtitle"; "[data-testid='jobTitle']"] with
  | Raise e => (Some e, st)
  | Ok title_el =>
  let title := text <$> title_el in
  match select_first job
          ["span[data-testid='company-name']"; ".company"; "[data-testid='company']"] with
  | Raise e => (Some e, st)
  | Ok company_el =>
  let company := text <$> company_el in
  match select_first job
          ["div[data-testid='text-location']"; ".location"; "[data-testid='location']"] with
  | Raise e => (Some e, st)
  | Ok location_el =>
  let location := text <$> location_el in
  match select_first job
          ["div.metadata.salary-snippet-container"; ".salaryText"; "[data-testid='salary']"] with
  | Raise e => (Some e, st)
  | Ok salary_el =>
  let salary := default "Not Listed" (text <$> salary_el) in
  match select_first job
          ["h2.jobTitle a"; "a.jobtitle"; "[data-testid='jobTitle'] a"] with
  | Raise e => (Some e, st)
  | Ok link_el =>
  let link := link_el ≫= href in
  let full_link :=
    match link with
    | Some h =>
        if String.eqb h "" then "No link available"
        else if startswith "/" h then base_url +:+ h else h
    | None => "No link available"
    end in
  let fetched := nonempty link in
  let st1 := if fetched then log (EvDetail full_link) st else st in
  match (if fetched then get_job_description full_link
         else Ok "No description available") with
  | Raise e => (Some e, st1)
  | Ok description =>
      if nonempty title && nonempty company then
        let job_data : gmap string json :=
          <["title" := JStr (default "" title)]>
          (<["company" := JStr (default "" company)]>
          (<["experience" := JStr (extract_experience description)]>
          (<["location" := JStr (str_or location "Location not specified")]>
          (<["apply_link" := JStr full_link]>
          (<["description" := JStr description]>
          (<["salary" := JStr salary]>
          (<["jobNature" := JStr "onsite"]> ∅))))))) in
        (None, {| jobs := jobs st1 ++ [job_data];
                  processed_count := S (processed_count st1);
                  page_num := page_num st1;
                  first_page_retried := first_page_retried st1;
                  navigations := navigations st1; trace := trace st1 |})
      else (None, st1)
  end end end end end end.

(** Lines 149-227: [for job in job_cards], with the handler of the card. *)
Fixpoint card_loop (cards : list card) (st : state) : option exn * state :=
  match cards with
  | [] => (None, st)
  | job :: rest =>
      if (max_jobs <=? processed_count st)%nat then (None, st)
      else
        match process_card job st with
        | (None, st') => card_loop rest st'
        | (Some e, st') =>
            if is_Exception e then card_loop rest st'   (* continue *)
            else (Some e, st')
        end
  end.

Definition search_url (position location : string) : string :=
  base_url +:+ "/jobs?q=" +:+ replace_char " " "+" position +:+
  "&l=" +:+ replace_char " " "+" location +:+ "&sort=date".

Definition turn_page (st : state) (page retried : _) : state :=
  {| jobs := jobs st; processed_count := processed_count st;
     page_num := page; first_page_retried := retried;
     navigations := navigations st; trace := trace st |}.

(** Lines 121-236: the [while] loop with the handler of the page.
    [None]: the fuel ran out. *)
Fixpoint page_loop (fuel : nat) (url : string) (st : state)
    : option (option exn * state) :=
  match fuel with
  | O => None
  | S fuel' =>
      if (processed_count st <? max_jobs)%nat && (page_num st <? 3)%nat then
        let current_url := url +:+ "&start=" +:+ pretty (page_num st * 10)%nat in
        let st1 :=
          {| jobs := jobs st; processed_count := processed_count st;
             page_num := page_num st;
             first_page_retried := first_page_retried st;
             navigations := S (navigations st);
             trace := trace st ++ [EvGet current_url] |} in
        match results web (navigations st) current_url with
        | LoadFails e =>
            if is_Exception e then Some (None, st1)        (* break *)
            else Some (Some e, st1)
        | Loaded page =>
            let cards := job_cards page in
            if (page_num st1 =? 1)%nat && (0 <? length cards)%nat
               && negb (first_page_retried st1) then
              page_loop fuel' url (turn_page st1 0 true)     (* continue *)
            else
              match card_loop cards st1 with
              | (Some e, st2) => Some (Some e, st2)
              | (None, st2) =>
                  if (max_jobs <=? processed_count st2)%nat then Some (None, st2)
                  else
                    page_loop fuel' url
                      (turn_page st2 (S (page_num st2)) (first_page_retried st2))
              end
        end
      else Some (None, st)
  end.

Definition initial : state :=
  {| jobs := []; processed_count := 0; page_num := 0;
     first_page_retried := false; navigations := 0; trace := [] |}.

(** [IndeedScraper.scrape_jobs]: the value returned or the exception that
    leaves the method, and the trace.  The browser is started and never
    stopped: the method has no call that closes it.  What reaches the two
    outer handlers is not an [Exception] (those are handled inside the
    loop), so they never fire. *)
Definition scrape_jobs (fuel : nat) (position location : string)
    : option (res (list (gmap string json)) * list event) :=
  match start web with
  | Some e =>
      if is_Exception e then Some (Ok [], []) else Some (Raise e, [])
  | None =>
      match page_loop fuel (search_url position location) (log EvBrowserStart initial) with
      | None => None
      | Some (None, st) => Some (Ok (jobs st), trace st)
      | Some (Some e, st) =>
          if is_Exception e then Some (Ok [], trace st)
          else Some (Raise e, trace st)
      end
  end.
End Scrape.

(** [scrape_indeed_sync]: [max_jobs] keeps its default. *)
Definition scrape_indeed_sync (web : site) (fuel : nat)
    (position location experience : string)
    : option (res (list (gmap string json)) * list event) :=
  scrape_jobs web 10 fuel position location.

End Indeed.

(** ** Source adapter: rozee_scraper.py *)

Module Rozee.

Definition base_url : string := "https://www.rozee.pk".

(** What a chain [find_element(..)...text.strip()] gives on one card. *)
Inductive lookup (A : Type) : Type :=
  | Found (a : A)
  | Fails (e : exn).
Global Arguments Found {A} a.
Global Arguments Fails {A} e.

(** A job card, seen through the lookups of lines 186-211, named after the
    class they query. *)
Record card : Type := {
  s_18_text : lookup string;           (* title *)
  cname : lookup string;               (* company *)
  float_left : lookup string;          (* location *)
  s_18_href : lookup (option string);  (* get_attribute('href') *)
  func_area_drn : lookup string;
  experience_class : lookup string;
  jbody : lookup string;
  offer_salary : lookup string
}.

(** What a page of results gives: [driver.get] may raise; the wait for the
    listings may raise ([TimeoutException] when none shows up). *)
Inductive page_result : Type :=
  | GetFails (e : exn)
  | WaitFails (e : exn)
  | Listings (cards : list card).

Record site : Type := {
  chrome : option exn;                 (* uc.Chrome(...): None = started *)
  pages : string → page_result;
  quit : option exn                    (* driver.quit(): None = closed *)
}.

Definition of_lookup {A} (l : lookup A) : res A :=
  match l with
  | Found a => Ok a
  | Fails e => Raise e
  end.

(** [try: l  except NoSuchElementException: fallback]. *)
Definition or_else {A} (l : lookup A) (fallback : res A) : res A :=
  match l with
  | Found a => Ok a
  | Fails e => if is_NoSuchElement e then fallback else Raise e
  end.

Definition job_identifier (title company location : string) : string :=
  title +:+ "_" +:+ company +:+ "_" +:+ location.

Definition opt_json (x : option string) : json :=
  match x with
  | Some s => JStr s
  | None => JNull
  end.

Record state : Type := {
  jobs : list (gmap string json);
  page : nat;
  previous_page_jobs : gset string;
  trace : list event
}.

Section Scrape.
Variable web : site.
Variable max_jobs : nat.

(** Lines 185-200: the lookups on one card, in the order of the source. *)
Definition read_card (job : card)
    : res (string * string * string * option string * string * string) :=
  bind (of_lookup (s_18_text job)) (λ title,
  bind (of_lookup (cname job)) (λ company,
  bind (of_lookup (float_left job)) (λ location,
  bind (of_lookup (s_18_href job)) (λ apply_link,
  bind (or_else (func_area_drn job)
          (or_else (experience_class job) (Ok "Not specified"))) (λ experience,
  bind (of_lookup (jbody job)) (λ description,
  Ok (title, company, location, apply_link, experience, description))))))).

(** Lines 185-228: the body of the [try] for one card, given the list and
    the identity set of the current page so far. *)
Definition process_card (previous : gset string) (job : card)
    (acc : list (gmap string json) * gset string)
    : option exn * (list (gmap string json) * gset string) :=
  let '(jobs, current_page_jobs) := acc in
  match read_card job with
  | Raise e => (Some e, (jobs, current_page_jobs))
  | Ok (title, company, location, apply_link, experience, description) =>
      let identifier := job_identifier title company location in
      let current := {[identifier]} ∪ current_page_jobs in
      if bool_decide (identifier ∈ previous) then (None, (jobs, current))
      else
        match or_else (offer_salary job) (Ok "Not Listed") with
        | Raise e => (Some e, (jobs, current))
        | Ok salary =>
            let job_data : gmap string json :=
              <["title" := JStr title]>
              (<["company" := JStr company]>
              (<["location" := JStr location]>
              (<["experience" := JStr experience]>
              (<["apply_link" := opt_json apply_link]>
              (<["description" := JStr description]>
              (<["salary" := JStr salary]>
              (<["jobNature" := JStr "onsite"]> ∅))))))) in
            (None, (jobs ++ [job_data], current))
        end
  end.

(** Lines 180-232: [for job in job_listings] with the handler of the card. *)
Fixpoint card_loop (previous : gset string) (cards : list card)
    (acc : list (gmap string json) * gset string)
    : option exn * (list (gmap string json) * gset string) :=
  match cards with
  | [] => (None, acc)
  | job :: rest =>
      if (max_jobs <=? length acc.1)%nat then (None, acc)
      else
        match process_card previous job acc with
        | (None, acc') => card_loop previous rest acc'
        | (Some e, acc') =>
            if is_Exception e then card_loop previous rest acc'   (* continue *)
            else (Some e, acc')
        end
  end.

Definition search_url (position city_code : string) : string :=
  base_url +:+ "/job/jsearch/q/" +:+ replace_char " " "%20" position +:+
  "/fc/" +:+ city_code.

(** Lines 160-246: the [while] loop with the handler of the wait.
    [None]: the fuel ran out. *)
Fixpoint page_loop (fuel : nat) (url : string) (st : state)
    : option (option exn * state) :=
  match fuel with
  | O => None
  | S fuel' =>
      if (length (jobs st) <? max_jobs)%nat then
        let current_url := url +:+ "/p/" +:+ pretty (page st) in
        let st1 :=
          {| jobs := jobs st; page := page st;
             previous_page_jobs := previous_page_jobs st;
             trace := trace st ++ [EvGet current_url] |} in
        match pages web current_url with
        | GetFails e => Some (Some e, st1)
        | WaitFails e =>
            if is_TimeoutException e then Some (None, st1)     (* break *)
            else Some (Some e, st1)
        | Listings [] => Some (None, st1)                      (* break *)
        | Listings job_listings =>
            let '(raised, (jobs', current_page_jobs)) :=
              card_loop (previous_page_jobs st1) job_listings (jobs st1, ∅) in
            let st2 :=
              {| jobs := jobs'; page := page st1;
                 previous_page_jobs := previous_page_jobs st1;
                 trace := trace st1 |} in
            match raised with
            | Some e => Some (Some e, st2)
            | None =>
                if (1 <? page st2)%nat
                   && bool_decide (current_page_jobs ⊆ previous_page_jobs st2)
                then Some (None, st2)                          (* break *)
                else
                  page_loop fuel' url
                    {| jobs := jobs st2; page := S (page st2);
                       previous_page_jobs := current_page_jobs;
                       trace := trace st2 |}
            end
        end
      else Some (None, st)
  end.

Definition initial : state :=
  {| jobs := []; page := 1; previous_page_jobs := ∅; trace := [EvBrowserStart] |}.

(** [RozeeScraper.scrape_jobs].  The browser is created before the [try];
    [except KeyboardInterrupt] returns the jobs collected; [finally] closes
    the browser, and an exception of [quit] replaces the outcome. *)
Definition scrape_jobs (fuel : nat) (position city_code : string)
    : M (list (gmap string json)) :=
  match chrome web with
  | Some e => Some (Raise e, [])
  | None =>
      match page_loop fuel (search_url position city_code) initial with
      | None => None
      | Some (raised, st) =>
          let tr := trace st ++ [EvBrowserQuit] in
          match quit web with
          | Some e => Some (Raise e, tr)
          | None =>
              match raised with
              | None => Some (Ok (jobs st), tr)
              | Some e =>
                  if is_KeyboardInterrupt e then Some (Ok (jobs st), tr)
                  else Some (Raise e, tr)
              end
          end
      end
  end.
End Scrape.

(** [a or b] on the values of [cities.get]: [None] and the empty code are
    falsy. *)
Definition or_code (a b : option string) : option string :=
  if nonempty a then a else b.

(** [scrape_rozee_sync].  [cities_file] is the content of cities.json,
    [None] when it cannot be loaded. *)
Definition scrape_rozee_sync (web : site) (cities_file : option (gmap string string))
    (fuel : nat) (position location experience : string)
    : M (list (gmap string json)) :=
  let cities : gmap string string := default ∅ cities_file in
  let location_lower := py_lower location in
  let location_title := py_title location in
  let city_code :=
    or_code (or_code (cities !! location) (cities !! location_lower))
      (cities !! location_title) in
  let city_code := default "1184" city_code in
  scrape_jobs web 10 fuel position city_code.

End Rozee.

(** ** Source adapter: linkedin_scraper.py *)

Module LinkedIn.

(** [EventData] of the linkedin-jobs-scraper package, the fields read. *)
Record EventData : Type := {
  title : string;
  company : string;
  insights : list string;
  place : string;
  link : string;
  description : string
}.

(** What [scraper.run(queries)] does for one query: the records it hands to
    the callback, then it returns or raises. *)
Record run : Type := {
  emitted : list EventData;
  failure : option exn
}.

Definition max_jobs : nat := 10.

(** [on_data]: nothing in the body of its [try] can raise. *)
Definition on_data (experience : string) (acc : list (gmap string json) * nat)
    (data : EventData) : list (gmap string json) * nat :=
  let '(jobs, processed_count) := acc in
  if (processed_count <? max_jobs)%nat then
    let job_data : gmap string json :=
      <["title" := JStr (title data)]>
      (<["company" := JStr (company data)]>
      (<["experience" :=
           match insights data with
           | [] => JStr experience
           | _ => JArr (JStr <$> insights data)
           end]>
      (<["location" := JStr (place data)]>
      (<["apply_link" := JStr (link data)]>
      (<["description" := JStr (description data)]>
      (<["salary" := JStr ""]>
      (<["jobNature" := JStr "onsite"]> ∅))))))) in
    (jobs ++ [job_data], S processed_count)
  else (jobs, processed_count).

Definition scrape_linkedin_sync (library : string → string → run)
    (position location experience : string) : M (list (gmap string json)) :=
  let r := library position location in
  let jobs := (foldl (on_data experience) ([], 0) (emitted r)).1 in
  match failure r with
  | None => Some (Ok jobs, [])
  | Some e => if is_Exception e then Some (Ok [], []) else Some (Raise e, [])
  end.

End LinkedIn.

(** ** Aggregation pipeline: main.py *)

Module Main.

Record world : Type := {
  ollama_url : option string;                 (* os.getenv("OLLAMA_API") *)
  probe : Analyzer.reply;                     (* reply to test_connection *)
  indeed : Indeed.site;
  linkedin : string → string → LinkedIn.run;
  rozee : Rozee.site;
  cities_file : option (gmap string string);
  llm : nat → nat → Analyzer.reply;
  running : nat → bool
}.

Section Api.
Variable json_loads : string → option json.
Variable exn_text : exn → string.
(** Lines 275-324: the conversion of the analyzed jobs to [JobResponse]
    objects and the dump to the timestamped file; it may raise. *)
Variable respond : list (gmap string json) → res (list (gmap string json)).

Variable w : world.
Variable fuel : nat.

(** The dictionary built from the job and the keyword [source]: a key given
    twice is a [TypeError]. *)
Fixpoint tag (src : string) (jobs : list (gmap string json))
    : res (list (gmap string json)) :=
  match jobs with
  | [] => Ok []
  | job :: rest =>
      match job !! "source" with
      | Some _ => Raise TypeError
      | None => bind (tag src rest) (λ r, Ok (<["source" := JStr src]> job :: r))
      end
  end.

Definition lift {A} (r : res A) : M A := Some (r, []).

Definition get_jobs (src : string) (scraper : M (list (gmap string json)))
    : M (list (gmap string json)) :=
  try_except
    (let* _ := emit (EvAdapter src) in
     let* jobs := scraper in
     lift (tag src jobs))
    is_Exception (λ _, ret []).

Definition get_indeed_jobs (request : JobRequest) : M (list (gmap string json)) :=
  get_jobs "indeed"
    (Indeed.scrape_indeed_sync (indeed w) fuel
       (position request) (location request) (experience request)).

Definition get_linkedin_jobs (request : JobRequest) : M (list (gmap string json)) :=
  get_jobs "linkedin"
    (LinkedIn.scrape_linkedin_sync (linkedin w)
       (position request) (location request) (experience request)).

Definition get_rozee_jobs (request : JobRequest) : M (list (gmap string json)) :=
  get_jobs "rozee"
    (Rozee.scrape_rozee_sync (rozee w) (cities_file w) fuel
       (position request) (location request) (experience request)).

Definition wanted (src : string) (request : JobRequest) : bool :=
  bool_decide (src ∈ sources request).

(** Lines 248-270: the merged list handed to the analyzer. *)
Definition collect_jobs (request : JobRequest) : M (list (gmap string json)) :=
  let all_jobs : list (gmap string json) := [] in
  let* all_jobs :=
    if wanted "indeed" request then
      let* indeed_jobs := get_indeed_jobs request in
      let* _ := emit (EvSleep 5) in
      ret (all_jobs ++ indeed_jobs)
    else ret all_jobs in
  let* all_jobs :=
    if wanted "linkedin" request then
      let* linkedin_jobs := get_linkedin_jobs request in
      ret (all_jobs ++ linkedin_jobs)
    else ret all_jobs in
  if wanted "rozee" request then
    let* rozee_jobs := get_rozee_jobs request in
    ret (all_jobs ++ rozee_jobs)
  else ret all_jobs.

Definition unavailable : exn :=
  HTTPException 503
    "Cannot connect to Ollama API. Please check if the service is running.".

(** [search_jobs]: the whole body sits in one [try] whose handler turns
    every [Exception] into a 500. *)
Definition search_jobs (request : JobRequest) : M (list (gmap string json)) :=
  try_except
    (let* _ :=
       match ollama_url w with
       | Some _ => ret tt
       | None => throw AttributeError        (* None.rstrip('/') *)
       end in
     let* _ := emit EvProbe in
     if negb (Analyzer.test_connection (probe w)) then throw unavailable
     else
       let* all_jobs := collect_jobs request in
       let* analyzed_jobs :=
         lift (Analyzer.analyze_jobs_batch json_loads exn_text
                 all_jobs request (llm w) (running w)) in
       lift (respond analyzed_jobs))
    is_Exception (λ e, throw (HTTPException 500 (exn_text e))).
End Api.
End Main.

(** ** Aggregation pipeline: the answer of [search_jobs] (main.py, lines 275-324) *)

Module Response.

(** The truth value of a JSON value: [None], [False], zero and the empty
    string, list and dictionary are falsy. *)
Definition py_truthy (v : json) : bool :=
  match v with
  | JNull => false
  | JBool b => b
  | JNum q => negb (bool_decide (q = 0%Qc))
  | JStr s => negb (String.eqb s "")
  | JArr items => match items with [] => false | _ => true end
  | JObj fields => match fields with [] => false | _ => true end
  end.

(** [v.lower()]: only strings have the method. *)
Definition lower_of (v : json) : res string :=
  match v with
  | JStr s => Ok (py_lower s)
  | _ => Raise AttributeError
  end.

(** [job[key]]. *)
Definition subscript (job : gmap string json) (key : string) : res json :=
  match job !! key with
  | Some v => Ok v
  | None => Raise (KeyError key)
  end.

Section Convert.
(** The constructor of the pydantic model [JobResponse] on its keyword
    arguments: the validated model, or [None] when validation fails. *)
Variable JobResponse : gmap string json → option (gmap string json).

(** Lines 280-282. *)
Definition job_experience (job : gmap string json) : res json :=
  let job_experience := dict_get job "experience" (JStr "Not specified") in
  if negb (py_truthy job_experience) then Ok (JStr "Not specified")
  else
    bind (lower_of job_experience) (λ low,
    if String.eqb low "none" then Ok (JStr "Not specified")
    else Ok job_experience).

(** Lines 280-296: the body of the [try] for one job.  The keyword arguments
    are evaluated from left to right. *)
Definition job_response (job : gmap string json) : res (gmap string json) :=
  bind (job_experience job) (λ experience,
  bind (subscript job "title") (λ title,
  bind (subscript job "company") (λ company,
  bind (subscript job "location") (λ location,
  bind (subscript job "apply_link") (λ apply_link,
  bind (subscript job "source") (λ source,
  match
    JobResponse
      (<["job_title" := title]>
      (<["company" := company]>
      (<["experience" := experience]>
      (<["jobNature" := dict_get job "jobNature" (JStr "Not specified")]>
      (<["location" := location]>
      (<["salary" := dict_get job "salary" (JStr "Not specified")]>
      (<["apply_link" := apply_link]>
      (<["description" :=
           dict_get job "description" (JStr "No description available")]>
      (<["source" := source]>
      (<["relevance_score" := dict_get job "relevance_score" (JInt 0)]>
      (<["matched_skills" := dict_get job "matched_skills" (JArr [])]> ∅)))))))))))
  with
  | Some model => Ok model
  | None => Raise ValueError        (* pydantic.ValidationError *)
  end)))))).

(** Lines 277-301: [for job in analyzed_jobs], with the handler that logs the
    job and goes on. *)
Fixpoint convert_loop (analyzed_jobs : list (gmap string json))
    (relevant_jobs : list (gmap string json)) : res (list (gmap string json)) :=
  match analyzed_jobs with
  | [] => Ok relevant_jobs
  | job :: rest =>
      match job_response job with
      | Ok model => convert_loop rest (relevant_jobs ++ [model])
      | Raise e =>
          if is_Exception e then convert_loop rest relevant_jobs   (* continue *)
          else Raise e
      end
  end.

(** [datetime.now().strftime("%Y%m%d_%H%M%S")], and what opening the file of
    that name and writing the models to it does: [None] when it succeeds. *)
Variable timestamp : string.
Variable write_file : string → list (gmap string json) → option exn.

Definition filename (position : string) : string :=
  "jobs_" +:+ replace_char " " "_" position +:+ "_" +:+ timestamp +:+ ".json".

(** Lines 275-324: conversion, dump to the file, [return relevant_jobs]. *)
Definition respond (position : string) (analyzed_jobs : list (gmap string json))
    : res (list (gmap string json)) :=
  bind (convert_loop analyzed_jobs []) (λ relevant_jobs,
  match write_file (filename position) relevant_jobs with
  | Some e => Raise e
  | None => Ok relevant_jobs
  end).

End Convert.
End Response.

(** ** Relevance analyzer: the address of the endpoint (llm_analyzer.py, line 93) *)

Module Setup.

(** [s.rstrip(c)] for one character. *)
Fixpoint rstrip (c : ascii) (s : string) : string :=
  match s with
  | EmptyString => EmptyString
  | String a s' =>
      match rstrip c s' with
      | EmptyString => if Ascii.eqb a c then EmptyString else String a EmptyString
      | t => String a t
      end
  end.

(** [self.api_url] after [__init__]. *)
Definition api_url (ngrok_url : string) : string := rstrip "/" ngrok_url.

(** The address [analyze_job] and [test_connection] post to. *)
Definition chat_url (ngrok_url : string) : string := api_url ngrok_url +:+ "/api/chat".

End Setup.

(** * Vocabulary of the specification

    The notions the specification uses to speak about the program: what an
    attempt of the analyzer yields, the back-off it prescribes, the order of
    the result, the entry of a job, the identity of a listing. *)

Module Spec.
Import Analyzer.

Section Verdicts.
Variable json_loads : string → option json.

(** The verdict an attempt returns: its reply is a 200 whose body carries a
    message with an embedded JSON object that parses. *)
Definition verdict_of (r : reply) : option (json * json) :=
  match r with
  | Response status body =>
      if (status =? 200)%Z then
        match read_verdict json_loads body with
        | Ok (Some v) => Some v
        | _ => None
        end
      else None
  | PostFails _ => None
  end.

Definition timed_out (r : reply) : bool :=
  match r with
  | PostFails ReadTimedOut => true
  | _ => false
  end.







(** A computation that lets no interrupt out: what it raises, if anything,
    is an [Exception]. *)
Definition tame {B : Type} (x : res B) : Prop :=
  ∀ e, x = Raise e → is_Exception e = true.


End Verdicts.

Section Sorting.
Context {A : Type} (key : A → json).

(** The numeric score of an item whose key is a number. *)
Definition score (x : A) : Qc := default 0%Qc (as_number (key x)).

Definition numeric (x : A) : Prop := is_Some (as_number (key x)).




End Sorting.

#[export] Instance numeric_dec {A : Type} (key : A → json) (x : A) :
  Decision (numeric key x).
Proof. unfold numeric. apply _. Defined.

Section Entries.
Variable json_loads : string → option json.
Variable exn_text : exn → string.
Variable requirements : JobRequest.
Variable llm : nat → nat → reply.

(** The two shapes of an entry: the job with its verdict, and the job with
    score 0, no skills and the text of the error. *)
Definition scored_entry (job : gmap string json) (score skills : json)
    : gmap string json :=
  <["matched_skills" := skills]> (<["relevance_score" := score]> job).

Definition failed_entry (job : gmap string json) (e : exn) : gmap string json :=
  <["error" := JStr (exn_text e)]>
    (<["matched_skills" := JArr []]> (<["relevance_score" := JInt 0]> job)).

(** The entry of the job at position [k]. *)
Definition entry_of (k : nat) (job : gmap string json) : gmap string json :=
  match analyze_job json_loads job requirements (llm k) with
  | Ok (score, skills) =>
      match py_len skills with
      | Ok _ => scored_entry job score skills
      | Raise e => failed_entry job e
      end
  | Raise e => failed_entry job e
  end.

Definition entries (jobs : list (gmap string json)) : list (gmap string json) :=
  imap entry_of jobs.

End Entries.

(** A job with a non-empty title and a non-empty company. *)
Definition titled (job : gmap string json) : Prop :=
  ∃ t c, job !! "title" = Some (JStr t) ∧ t ≠ ""
       ∧ job !! "company" = Some (JStr c) ∧ c ≠ "".

(** The results pages requested in a trace. *)
Definition gets (tr : list event) : list string :=
  omap (λ ev, match ev with EvGet url => Some url | _ => None end) tr.

(** What the loops of the indeed adapter maintain. *)
Record inv (max_jobs : nat) (st : Indeed.state) : Prop := {
  inv_count : Indeed.processed_count st = length (Indeed.jobs st);
  inv_titled : Forall titled (Indeed.jobs st);
  inv_gets : length (gets (Indeed.trace st)) = Indeed.navigations st;
  inv_open : EvBrowserQuit ∉ Indeed.trace st;
  inv_max : length (Indeed.jobs st) ≤ max_jobs
}.

(** Pages still allowed: the indices up to 2, and the one retry. *)
Definition budget (st : Indeed.state) : nat :=
  (if Indeed.first_page_retried st then 0 else 2) + (3 - Indeed.page_num st).

(** A job whose identity was not on the previous page and is recorded for
    the current one. *)
Definition fresh (previous current : gset string) (job : gmap string json) : Prop :=
  ∃ t c l, job !! "title" = Some (JStr t)
         ∧ job !! "company" = Some (JStr c)
         ∧ job !! "location" = Some (JStr l)
         ∧ (Rozee.job_identifier t c l ∉ previous)
         ∧ Rozee.job_identifier t c l ∈ current.

Definition current_url (url : string) (st : Rozee.state) : string :=
  url +:+ "/p/" +:+ pretty (Rozee.page st).

End Spec.

(** ** What the patterns of the normalizer denote *)

Module Matching.
Import Re.

(** [matches r s cap s' cap']: the pattern [r] can consume the text between
    [s] and its suffix [s'], the text of the group going from [cap] to
    [cap']. *)
Inductive matches : regex → string → string → string → string → Prop :=
  | matches_eps s cap : matches Eps s cap s cap
  | matches_one cs c s cap :
      in_cset cs c = true → matches (One cs) (String c s) cap s cap
  | matches_lit d c s cap :
      Ascii.eqb (lower c) (lower d) = true → matches (Lit d) (String c s) cap s cap
  | matches_cat r1 r2 s cap s1 cap1 s2 cap2 :
      matches r1 s cap s1 cap1 → matches r2 s1 cap1 s2 cap2 →
      matches (Cat r1 r2) s cap s2 cap2
  | matches_opt r s cap s1 cap1 :
      matches r s cap s1 cap1 → matches (Opt r) s cap s1 cap1
  | matches_opt_skip r s cap : matches (Opt r) s cap s cap
  | matches_star_stop r s cap : matches (Star r) s cap s cap
  | matches_star_step r s cap s1 cap1 s2 cap2 :
      matches r s cap s1 cap1 → matches (Star r) s1 cap1 s2 cap2 →
      matches (Star r) s cap s2 cap2
  | matches_group r s cap s1 cap1 :
      matches r s cap s1 cap1 → matches (Group r) s cap s1 (consumed s s1).

(** Syntactic checks on a pattern, each with the fact about its matches that
    it decides. *)

(** No group inside: the group text is left alone. *)
Fixpoint group_free (r : regex) : bool :=
  match r with
  | Group _ => false
  | Cat a b => group_free a && group_free b
  | Opt a | Star a => group_free a
  | _ => true
  end.

(** Every match starts by consuming a digit. *)
Fixpoint head_digit (r : regex) : bool :=
  match r with
  | One Digit => true
  | Cat a _ => head_digit a
  | Group a => head_digit a
  | _ => false
  end.

(** Every match leaves a group text that starts with a digit. *)
Fixpoint captures_digit (r : regex) : bool :=
  match r with
  | Group a => head_digit a
  | Cat a b => captures_digit b || (captures_digit a && group_free b)
  | _ => false
  end.

(** Every match consumes a digit. *)
Fixpoint needs_digit (r : regex) : bool :=
  match r with
  | One Digit => true
  | Cat a b => needs_digit a || needs_digit b
  | Group a => needs_digit a
  | _ => false
  end.



Fixpoint has_digit (s : string) : bool :=
  match s with
  | EmptyString => false
  | String c s' => is_digit c || has_digit s'
  end.

(** A text that starts with a digit. *)
Definition leading_digit (s : string) : bool :=
  match s with
  | String c _ => is_digit c
  | EmptyString => false
  end.

End Matching.

(** ** The records the adapters build *)

Module Shape.
Import Normalizer.

(** The keys of a job as every adapter builds it. *)
Definition job_keys : gset string :=
  {[ "title"; "company"; "experience"; "location"; "apply_link";
     "description"; "salary"; "jobNature" ]}.

(** A job of the indeed adapter: eight string fields; title, company,
    location and link are not empty, the link is not relative to the root of
    the site, and the experience is read off the description. *)
Definition indeed_record (job : gmap string json) : Prop :=
  ∃ title company location link description salary,
    job !! "title" = Some (JStr title) ∧ title ≠ ""
    ∧ job !! "company" = Some (JStr company) ∧ company ≠ ""
    ∧ job !! "location" = Some (JStr location) ∧ location ≠ ""
    ∧ job !! "apply_link" = Some (JStr link) ∧ link ≠ ""
    ∧ startswith "/" link = false
    ∧ job !! "description" = Some (JStr description)
    ∧ job !! "experience" = Some (JStr (extract_experience description))
    ∧ job !! "salary" = Some (JStr salary)
    ∧ job !! "jobNature" = Some (JStr "onsite")
    ∧ dom job = job_keys.

(** A job of the rozee adapter: the link is the [href] attribute, which may
    be missing. *)
Definition rozee_record (job : gmap string json) : Prop :=
  ∃ title company location experience link description salary,
    job !! "title" = Some (JStr title)
    ∧ job !! "company" = Some (JStr company)
    ∧ job !! "location" = Some (JStr location)
    ∧ job !! "experience" = Some (JStr experience)
    ∧ job !! "apply_link" = Some (Rozee.opt_json link)
    ∧ job !! "description" = Some (JStr description)
    ∧ job !! "salary" = Some (JStr salary)
    ∧ job !! "jobNature" = Some (JStr "onsite")
    ∧ dom job = job_keys.

(** The job the linkedin callback builds from one record. *)
Definition linkedin_job (experience : string) (data : LinkedIn.EventData)
    : list (gmap string json) :=
  (LinkedIn.on_data experience ([], 0) data).1.

(** A job carries the name of its adapter and the eight keys. *)
Definition tagged (src : string) (job : gmap string json) : Prop :=
  job !! "source" = Some (JStr src) ∧ dom job = {["source"]} ∪ job_keys.

End Shape.

(** ** The pages the adapters request *)

Module Paging.

(** The address of the results page with index [k] of the indeed search. *)
Definition indeed_page_url (url : string) (k : nat) : string :=
  url +:+ "&start=" +:+ pretty (k * 10).

(** The page indices a run of the indeed loop can still request, from page
    index [p]: the indices up to 2 in order, or, while the first page has not
    been retried, the indices up to 1 followed by 0, 1, 2. *)
Definition indeed_future (p : nat) (retried : bool) (pages : list nat) : Prop :=
  pages `prefix_of` seq p (3 - p)
  ∨ (retried = false ∧ p ≤ 1 ∧ pages `prefix_of` seq p (2 - p) ++ [0; 1; 2]).

(** The address of page [k] of the rozee search. *)
Definition rozee_page_url (url : string) (k : nat) : string :=
  url +:+ "/p/" +:+ pretty k.

End Paging.

(** ** Further notions *)

Module Terms.

(** The model of a job in the answer, when the conversion gives one. *)
Definition accepted (JobResponse : gmap string json → option (gmap string json))
    (job : gmap string json) : option (gmap string json) :=
  match Response.job_response JobResponse job with
  | Ok model => Some model
  | Raise _ => None
  end.

(** The text made of [n] times the character [c]. *)
Fixpoint repeated (c : ascii) (n : nat) : string :=
  match n with
  | O => EmptyString
  | S n' => String c (repeated c n')
  end.

(** Whether the character [c] occurs in a text. *)
Fixpoint has_char (c : ascii) (s : string) : bool :=
  match s with
  | EmptyString => false
  | String a s' => Ascii.eqb a c || has_char c s'
  end.

End Terms.

(** * Sample inputs *)

Module Samples.
Import Analyzer Spec.

(** Sample replies.  [quote] is the double quote character. *)
Definition quote : string := String "034"%char EmptyString.

Definition span_150 : string :=
  "{" +:+ quote +:+ "relevance_score" +:+ quote +:+ ": 150, " +:+
  quote +:+ "matched_skills" +:+ quote +:+ ": []}".

Definition span_null : string :=
  "{" +:+ quote +:+ "relevance_score" +:+ quote +:+ ": null}".

Definition span_count : string :=
  "{" +:+ quote +:+ "relevance_score" +:+ quote +:+ ": 80, " +:+
  quote +:+ "matched_skills" +:+ quote +:+ ": 5}".

(** [json.loads] on the three documents used in the samples. *)
Definition loads_sample (text : string) : option json :=
  if String.eqb text span_150 then
    Some (JObj [("relevance_score", JInt 150); ("matched_skills", JArr [])])
  else if String.eqb text span_null then
    Some (JObj [("relevance_score", JNull)])
  else if String.eqb text span_count then
    Some (JObj [("relevance_score", JInt 80); ("matched_skills", JInt 5)])
  else None.

Definition chat (content : string) : reply :=
  Response 200
    (Some (JObj [("model", JStr "deepseek-r1:7b");
                 ("message", JObj [("role", JStr "assistant");
                                   ("content", JStr content)])])).

Definition reply_150 : reply := chat ("Here is the verdict: " +:+ span_150).
Definition reply_count : reply := chat span_count.

Definition sample_request : JobRequest :=
  {| position := "Software Engineer"; experience := "2 years";
     salary := "70,000 PKR"; jobNature := "onsite"; location := "Islamabad";
     skills := "Python"; sources := ["indeed"; "linkedin"; "rozee"] |}.

Definition sample_job (title : string) : gmap string json :=
  <["title" := JStr title]> (<["company" := JStr "Acme"]> ∅).

(** An indeed card with the given title, company and link. *)
Definition indeed_card (title company link : string) : Indeed.card :=
  λ sel,
    if String.eqb sel "h2.jobTitle" then
      Indeed.Hit {| Indeed.text := title; Indeed.href := None |}
    else if String.eqb sel "span[data-testid='company-name']" then
      Indeed.Hit {| Indeed.text := company; Indeed.href := None |}
    else if String.eqb sel "h2.jobTitle a" then
      Indeed.Hit {| Indeed.text := title; Indeed.href := Some link |}
    else Indeed.Miss.

(** A card whose first query already raises. *)
Definition indeed_broken_card : Indeed.card := λ _, Indeed.Fault (OtherError "parser").

Definition indeed_page (cards : list Indeed.card) : Indeed.results_page :=
  {| Indeed.job_seen_beacon := cards; Indeed.cardOutline := [];
     Indeed.organicJob := [] |}.

(** One page with a broken card, a card without company and a full card;
    every later page is empty. *)
Definition indeed_site : Indeed.site :=
  {| Indeed.start := None;
     Indeed.results := λ n _,
       if n =? 0 then
         Loaded (indeed_page [indeed_broken_card;
                              indeed_card "Intern" "" "/job/0";
                              indeed_card "Dev" "Acme" "/job/1"])
       else Loaded (indeed_page []);
     Indeed.description_page := λ _, Loaded (Some "5+ years of experience in backend") |}.


Definition rozee_card (title place : string) (salary : Rozee.lookup string)
    : Rozee.card :=
  {| Rozee.s_18_text := Rozee.Found title;
     Rozee.cname := Rozee.Found "Acme";
     Rozee.float_left := Rozee.Found place;
     Rozee.s_18_href := Rozee.Found (Some "https://www.rozee.pk/job/1");
     Rozee.func_area_drn := Rozee.Fails NoSuchElementException;
     Rozee.experience_class := Rozee.Fails NoSuchElementException;
     Rozee.jbody := Rozee.Found "We build things";
     Rozee.offer_salary := salary |}.

(** A site that serves the same two listings on every page. *)
Definition rozee_repeating : Rozee.site :=
  {| Rozee.chrome := None;
     Rozee.pages := λ _,
       Rozee.Listings
         [rozee_card "Dev" "Lahore" (Rozee.Fails NoSuchElementException);
          rozee_card "Ops" "Lahore" (Rozee.Found "100K")];
     Rozee.quit := None |}.




(** A site that serves one new, complete listing on every page. *)
Definition rozee_growing : Rozee.site :=
  {| Rozee.chrome := None;
     Rozee.pages := λ url,
       Rozee.Listings [rozee_card "Dev" url (Rozee.Found "100K")];
     Rozee.quit := None |}.

(** A linkedin run that hands over one record without a title. *)
Definition linkedin_untitled : string → string → LinkedIn.run :=
  λ _ _,
    {| LinkedIn.emitted :=
         [{| LinkedIn.title := ""; LinkedIn.company := "Acme";
             LinkedIn.insights := []; LinkedIn.place := "Lahore";
             LinkedIn.link := "https://www.linkedin.com/jobs/view/1";
             LinkedIn.description := "We build things" |}];
       LinkedIn.failure := None |}.

Definition world (probe : Analyzer.reply) : Main.world :=
  {| Main.ollama_url := Some "http://localhost:11434";
     Main.probe := probe;
     Main.indeed := indeed_site;
     Main.linkedin := linkedin_untitled;
     Main.rozee := rozee_repeating;
     Main.cities_file := None;
     Main.llm := λ _ _, reply_150;
     Main.running := λ _, true |}.

Definition request (sources : list string) : JobRequest :=
  {| position := "Software Engineer"; experience := "2 years";
     salary := "70,000 PKR"; jobNature := "onsite"; location := "Lahore";
     skills := "Python"; sources := sources |}.

Definition titles_of (jobs : list (gmap string json)) : list (option json) :=
  (λ job : gmap string json, job !! "title") <$> jobs.

Definition ran (m : M (list (gmap string json))) : list (option json) * list event :=
  match m with
  | Some (Ok jobs, tr) => (titles_of jobs, tr)
  | _ => ([], [])
  end.

(** The title, company and source of the jobs a computation returns, with
    its trace; [None] when it does not return a list. *)
Definition collected (m : M (list (gmap string json)))
    : option (list (option json * option json * option json) * list event) :=
  match m with
  | Some (Ok jobs, tr) =>
      Some ((λ job : gmap string json,
               (job !! "title", job !! "company", job !! "source")) <$> jobs, tr)
  | _ => None
  end.

(** Seven jobs, as in the example of the specification: the jobs at even
    positions get a verdict, the others none. *)
Definition seven_jobs : list (gmap string json) :=
  sample_job <$> ["A"; "B"; "C"; "D"; "E"; "F"; "G"].

Definition llm_sample (k attempt : nat) : reply :=
  if Nat.even k then reply_150
  else chat "no verdict".

Definition titles (r : res (list (gmap string json))) : list (option json) :=
  match r with
  | Ok out => (λ x : gmap string json, x !! "title") <$> out
  | Raise _ => []
  end.






(** A site that has listings on every page: the indeed adapter goes back to
    the first page once and requests five pages. *)
Definition indeed_full : Indeed.site :=
  {| Indeed.start := None;
     Indeed.results := λ _ _, Loaded (indeed_page [indeed_card "Intern" "" "/job/0"]);
     Indeed.description_page := λ _, Loaded None |}.

End Samples.

(** * Further sample inputs *)

Module Cases.
Import Samples.

(** A job with the eight fields of the adapters. *)
Definition record
    (title company experience location apply_link description salary : string)
    : gmap string json :=
  <["title" := JStr title]>
  (<["company" := JStr company]>
  (<["experience" := JStr experience]>
  (<["location" := JStr location]>
  (<["apply_link" := JStr apply_link]>
  (<["description" := JStr description]>
  (<["salary" := JStr salary]>
  (<["jobNature" := JStr "onsite"]> ∅))))))).

(** What the indeed adapter returns on [indeed_site]. *)
Definition indeed_dev : gmap string json :=
  record "Dev" "Acme" "5+  years" "Location not specified"
    "https://pk.indeed.com/job/1" "5+ years of experience in backend" "Not Listed".

(** What the rozee adapter returns on [rozee_repeating]. *)
Definition rozee_dev : gmap string json :=
  record "Dev" "Acme" "Not specified" "Lahore" "https://www.rozee.pk/job/1"
    "We build things" "Not Listed".

Definition rozee_ops : gmap string json :=
  record "Ops" "Acme" "Not specified" "Lahore" "https://www.rozee.pk/job/1"
    "We build things" "100K".

(** The job of [linkedin_untitled], as the merged list holds it. *)
Definition linkedin_tagged : gmap string json :=
  <["source" := JStr "linkedin"]>
    (record "" "Acme" "2 years" "Lahore" "https://www.linkedin.com/jobs/view/1"
       "We build things" "").

(** The model of that job in the answer, for a verdict with score 150. *)
Definition linkedin_answer : gmap string json :=
  <["job_title" := JStr ""]>
  (<["company" := JStr "Acme"]>
  (<["experience" := JStr "2 years"]>
  (<["jobNature" := JStr "onsite"]>
  (<["location" := JStr "Lahore"]>
  (<["salary" := JStr ""]>
  (<["apply_link" := JStr "https://www.linkedin.com/jobs/view/1"]>
  (<["description" := JStr "We build things"]>
  (<["source" := JStr "linkedin"]>
  (<["relevance_score" := JInt 150]>
  (<["matched_skills" := JArr []]> ∅)))))))))).

(** A record of the linkedin library that carries insights. *)
Definition with_insights : LinkedIn.EventData :=
  {| LinkedIn.title := "Dev"; LinkedIn.company := "Acme";
     LinkedIn.insights := ["Remote"; "11-50 employees"];
     LinkedIn.place := "Lahore";
     LinkedIn.link := "https://www.linkedin.com/jobs/view/2";
     LinkedIn.description := "We build things" |}.

Definition job_with_insights : gmap string json :=
  <["title" := JStr "Dev"]>
  (<["company" := JStr "Acme"]>
  (<["experience" := JArr [JStr "Remote"; JStr "11-50 employees"]]>
  (<["location" := JStr "Lahore"]>
  (<["apply_link" := JStr "https://www.linkedin.com/jobs/view/2"]>
  (<["description" := JStr "We build things"]>
  (<["salary" := JStr ""]>
  (<["jobNature" := JStr "onsite"]> ∅))))))).

(** A validation that accepts every set of keyword arguments. *)
Definition accept_all (kwargs : gmap string json) : option (gmap string json) :=
  Some kwargs.

(** A disk on which no file can be written. *)
Definition disk_full (name : string) (models : list (gmap string json))
    : option exn :=
  Some (OtherError "No space left on device").

Definition disk_fine (name : string) (models : list (gmap string json))
    : option exn := None.

(** A world in which the run of the linkedin library is interrupted. *)
Definition interrupted_world : Main.world :=
  {| Main.ollama_url := Some "http://localhost:11434";
     Main.probe := reply_150;
     Main.indeed := indeed_site;
     Main.linkedin := λ _ _,
       {| LinkedIn.emitted := []; LinkedIn.failure := Some KeyboardInterrupt |};
     Main.rozee := rozee_repeating;
     Main.cities_file := None;
     Main.llm := λ _ _, reply_150;
     Main.running := λ _, true |}.

(** The stop flag cleared after the first batch. *)
Definition stopped_after_first (i : nat) : bool := (i <? 5)%nat.

(** The same request with its sources in another order, one of them twice
    and one unknown. *)
Definition shuffled_sources : list string :=
  ["rozee"; "glassdoor"; "linkedin"; "rozee"].

Definition plain_sources : list string := ["linkedin"; "rozee"].

End Cases.

(** * Properties *)

(** ** The samples, run *)

Module SampleRuns.
Import Samples.

Example indeed_run :
  ran (Indeed.scrape_jobs indeed_site 10 6 "python dev" "Lahore")
  = ([Some (JStr "Dev")],
     [EvBrowserStart;
      EvGet "https://pk.indeed.com/jobs?q=python+dev&l=Lahore&sort=date&start=0";
      EvDetail "https://pk.indeed.com/job/0";
      EvDetail "https://pk.indeed.com/job/1";
      EvGet "https://pk.indeed.com/jobs?q=python+dev&l=Lahore&sort=date&start=10";
      EvGet "https://pk.indeed.com/jobs?q=python+dev&l=Lahore&sort=date&start=20"]).
Proof. vm_compute. reflexivity. Qed.

Example rozee_run :
  ran (Rozee.scrape_rozee_sync rozee_repeating None 3 "python dev" "lahore" "2 years")
  = ([Some (JStr "Dev"); Some (JStr "Ops")],
     [EvBrowserStart;
      EvGet "https://www.rozee.pk/job/jsearch/q/python%20dev/fc/1184/p/1";
      EvGet "https://www.rozee.pk/job/jsearch/q/python%20dev/fc/1184/p/2";
      EvBrowserQuit]).
Proof. vm_compute. reflexivity. Qed.

End SampleRuns.

(** ** Normalizer *)

Module NormalizerFacts.
Import Normalizer.

Example extract_experience_none :
  extract_experience "no requirement mentioned" = "Not specified".
Proof. vm_compute. reflexivity. Qed.

(** The group of the first pattern ends with the blanks that follow the
    count, so the result has two blanks before "years". *)
Example first_pattern_group :
  Re.findall (default Re.Eps (head experience_patterns))
    "5+ years of experience in backend" = ["5+ "].
Proof. vm_compute. reflexivity. Qed.

(** The group of the second pattern contains the word "years" itself. *)
Example second_pattern_repeats_years :
  extract_experience "Experience: 5 years required" = "5 years years".
Proof. vm_compute. reflexivity. Qed.

(** C6.  On the first example of the specification the function returns
    the count followed by two blanks and "years", not "5+ years": the
    capturing group of the first pattern swallows the blank after the count.
    The second example, a text without any pattern, gives "Not specified". *)
Theorem extract_experience_spec_examples :
  extract_experience "5+ years of experience in backend" = "5+  years"
  ∧ extract_experience "5+ years of experience in backend" ≠ "5+ years"
  ∧ extract_experience "no requirement mentioned" = "Not specified".
Proof. vm_compute. repeat split; congruence. Qed.

End NormalizerFacts.

(** ** The experience argument of the indeed and rozee adapters *)

Module ExperienceFacts.

(** C10.  Two runs of [scrape_indeed_sync], or of [scrape_rozee_sync],
    against the same site that differ only in the experience argument return
    the same jobs (and visit the same pages): the argument is accepted and
    never used. *)
Theorem experience_is_ignored :
  (∀ (web : Indeed.site) (fuel : nat) (position location e1 e2 : string),
     Indeed.scrape_indeed_sync web fuel position location e1
     = Indeed.scrape_indeed_sync web fuel position location e2)
  ∧ (∀ (web : Rozee.site) (cities_file : option (gmap string string))
       (fuel : nat) (position location e1 e2 : string),
       Rozee.scrape_rozee_sync web cities_file fuel position location e1
       = Rozee.scrape_rozee_sync web cities_file fuel position location e2).
Proof. split; intros; reflexivity. Qed.

End ExperienceFacts.

(** ** The pre-flight gate of [search_jobs] *)

Module GateFacts.
Import Main.

(** C1.  When the probe fails, [search_jobs] invokes no adapter (the
    trace holds the probe and nothing else), but the 503 it raises is caught
    by the handler that wraps the whole body and leaves as a 500 whose detail
    is the text of the 503. *)
Theorem search_jobs_probe_failure
    (json_loads : string → option json) (exn_text : exn → string)
    (respond : list (gmap string json) → res (list (gmap string json)))
    (w : world) (fuel : nat) (request : JobRequest) (url : string) :
  ollama_url w = Some url →
  Analyzer.test_connection (probe w) = false →
  search_jobs json_loads exn_text respond w fuel request
  = Some (Raise (HTTPException 500 (exn_text unavailable)), [EvProbe]).
Proof.
  intros Hurl Hprobe. unfold search_jobs. rewrite Hurl, Hprobe. reflexivity.
Qed.

End GateFacts.

(** ** The retry loop of [analyze_job] *)

Module AnalyzerFacts.
Import Analyzer Spec.

Section Facts.
Variable json_loads : string → option json.

Lemma tame_Ok {B : Type} (b : B) : tame (Ok b).
Proof. intros e [=]. Qed.

Lemma tame_bind {B C : Type} (x : res B) (f : B → res C) :
  tame x → (∀ b, tame (f b)) → tame (bind x f).
Proof.
  intros Hx Hf e. destruct x as [b|e']; simpl.
  - apply Hf.
  - intros [= <-]. by apply Hx.
Qed.

Lemma tame_py_in (item : string) (container : json) : tame (py_in item container).
Proof. intros e. destruct container; simpl; intros [= <-]; reflexivity. Qed.

Lemma tame_py_getitem (container : json) (key : string) :
  tame (py_getitem container key).
Proof.
  intros e. destruct container; simpl; try (intros [= <-]; reflexivity).
  destruct (assoc _ _); intros [= <-]; reflexivity.
Qed.

Lemma tame_py_get (obj : json) (key : string) (dflt : json) :
  tame (py_get obj key dflt).
Proof. intros e. destruct obj; simpl; intros [= <-]; reflexivity. Qed.

Lemma read_verdict_raises_Exception (body : option json) (e : exn) :
  read_verdict json_loads body = Raise e → is_Exception e = true.
Proof.
  revert e. change (tame (read_verdict json_loads body)). unfold read_verdict.
  repeat first
    [ apply tame_Ok | apply tame_py_in | apply tame_py_getitem
    | apply tame_py_get | apply tame_bind; [|intros ?]
    | progress case_match | (intros ? [= <-]; reflexivity) ].
Qed.

Lemma one_attempt_cases (attempt : nat) (d : Z) (r : reply) :
  one_attempt json_loads attempt d r =
  match verdict_of json_loads r with
  | Some v => (Return v, d, [EvPost attempt])
  | None =>
      if timed_out r && (attempt <? max_retries - 1)%nat
      then (Next, (d * 2)%Z, [EvPost attempt; EvSleep d])
      else (Next, d, [EvPost attempt])
  end.
Proof.
  destruct r as [[|msg]|status body]; simpl.
  - destruct (attempt <? max_retries - 1)%nat; reflexivity.
  - reflexivity.
  - destruct (status =? 200)%Z; [|reflexivity].
    destruct (read_verdict json_loads body) as [[v|]|e] eqn:Hv; try reflexivity.
    by rewrite (read_verdict_raises_Exception _ _ Hv).
Qed.

(** The loop never lets an exception out; it returns the verdict of the
    first successful attempt, or the fallback when there is none. *)
Lemma attempt_loop_result (endpoint : nat → reply) (n first : nat) (d : Z) :
  ∃ v d' tr,
    attempt_loop json_loads endpoint (seq first n) d = (Ok v, d', tr)
    ∧ ((∃ k, first ≤ k < first + n
             ∧ verdict_of json_loads (endpoint k) = Some v
             ∧ ∀ m, first ≤ m < k → verdict_of json_loads (endpoint m) = None)
       ∨ (v = (JInt 0, JArr [])
          ∧ ∀ k, first ≤ k < first + n → verdict_of json_loads (endpoint k) = None)).
Proof.
  revert first d. induction n as [|n IH]; intros first d.
  - exists (JInt 0, JArr []), d, []. split; [reflexivity|].
    right. split; [reflexivity|]. intros k Hk. lia.
  - cbn [seq attempt_loop]. rewrite one_attempt_cases.
    destruct (verdict_of json_loads (endpoint first)) as [v|] eqn:Hfirst.
    + exists v, d, [EvPost first]. split; [reflexivity|].
      left. exists first. split; [lia|]. split; [done|]. intros m Hm. lia.
    + set (step := if timed_out (endpoint first) && (first <? max_retries - 1)%nat
                   then _ else _).
      assert (∃ d1 evs, step = (Next, d1, evs)) as (d1 & evs & ->).
      { subst step. destruct (_ && _); eauto. }
      destruct (IH (S first) d1) as (v & d' & tr & Hloop & Hv).
      rewrite Hloop. exists v, d', (evs ++ tr). split; [reflexivity|].
      destruct Hv as [(k & Hk & Hsome & Hnone)|[-> Hnone]].
      * left. exists k. split; [lia|]. split; [done|].
        intros m Hm. destruct (decide (m = first)) as [->|]; [done|].
        apply Hnone. lia.
      * right. split; [reflexivity|].
        intros k Hk. destruct (decide (k = first)) as [->|]; [done|].
        apply Hnone. lia.
Qed.









End Facts.
End AnalyzerFacts.

(** ** The descending stable sort *)

Module SortFacts.
Import Spec.

Section Facts.
Context {A : Type} (key : A → json).












(** With two items or more, a key that is [None] makes the sort raise. *)
Lemma insert_sorted_null (x y : A) (l : list A) :
  key y = JNull → insert_sorted key x (y :: l) = Raise TypeError.
Proof. intros Hy. simpl. rewrite Hy. reflexivity. Qed.

End Facts.
End SortFacts.

(** ** [analyze_job]: result and back-off *)

Module AnalyzerClaims.
Import Analyzer Spec Samples AnalyzerFacts.




(** The scenario of the specification: two timeouts, then a verdict. *)
Example two_timeouts_then_verdict :
  analyze_job_run loads_sample (sample_job "Dev") sample_request
    (λ n, if (n <? 2)%nat then PostFails ReadTimedOut else reply_150)
  = (Ok (JInt 150, JArr []), 20%Z,
     [EvPost 0; EvSleep 5; EvPost 1; EvSleep 10; EvPost 2]).
Proof. vm_compute. reflexivity. Qed.

(** A failure that is not a timeout consumes its attempt without a sleep. *)
Example other_failures_do_not_sleep :
  analyze_job_run loads_sample (sample_job "Dev") sample_request
    (λ n, match n with
          | 0 => PostFails (TransportError "connection refused")
          | 1 => Response 500 None
          | _ => chat "no verdict here"
          end)
  = (Ok (JInt 0, JArr []), 5%Z, [EvPost 0; EvPost 1; EvPost 2]).
Proof. vm_compute. reflexivity. Qed.

End AnalyzerClaims.

(** ** [analyze_jobs_batch] *)

Module BatchFacts.
Import Analyzer Spec Samples AnalyzerFacts SortFacts.

Section Facts.
Variable json_loads : string → option json.
Variable exn_text : exn → string.
Variable requirements : JobRequest.
Variable llm : nat → nat → reply.

Lemma analyze_single_job_entry (k : nat) (job : gmap string json) :
  analyze_single_job json_loads exn_text job requirements (llm k)
  = Ok (entry_of json_loads exn_text requirements llm k job).
Proof.
  unfold analyze_single_job, entry_of, analyze_job, analyze_job_run.
  destruct (attempt_loop_result json_loads (llm k) max_retries 0 initial_retry_delay)
    as ([score skills] & d' & tr & -> & _).
  cbn [fst snd bind]. destruct skills; reflexivity.
Qed.

Lemma chunks_concat {B : Type} (m : nat) (l : list B) :
  length l ≤ m * batch_size →
  concat ((λ k, take batch_size (drop (k * batch_size) l)) <$> seq 0 m) = l.
Proof.
  revert l. induction m as [|m IH]; intros l Hlen.
  - destruct l; [done|simpl in Hlen; lia].
  - cbn [seq fmap list_fmap concat]. rewrite <-fmap_S_seq, <-list_fmap_compose.
    transitivity (take batch_size l ++ drop batch_size l); [|apply take_drop].
    f_equal. etrans; [|apply (IH (drop batch_size l))].
    + f_equal. apply list_fmap_ext. intros _ k _. simpl.
      by rewrite drop_drop.
    + rewrite length_drop. unfold batch_size in *. lia.
Qed.

Lemma batch_starts_cover (n : nat) :
  batch_starts n = (λ k, k * batch_size) <$> seq 0 ((n + batch_size - 1) / batch_size)
  ∧ n ≤ (n + batch_size - 1) / batch_size * batch_size.
Proof.
  split; [reflexivity|]. unfold batch_size.
  pose proof (Nat.div_mod_eq (n + 5 - 1) 5).
  pose proof (Nat.mod_upper_bound (n + 5 - 1) 5). lia.
Qed.

Section Loop.
Variable jobs : list (gmap string json).
Variable running : nat → bool.
Hypothesis never_stopped : ∀ i, running i = true.

Lemma batch_results (i : nat) :
  imap (λ k job, analyze_single_job json_loads exn_text job requirements (llm (i + k)))
    (take batch_size (drop i jobs))
  = Ok <$> take batch_size (drop i (entries json_loads exn_text requirements llm jobs)).
Proof.
  apply list_eq. intros j.
  rewrite list_lookup_imap, list_lookup_fmap, !lookup_take. case_decide; [|done].
  rewrite !lookup_drop. unfold entries. rewrite list_lookup_imap.
  destruct (jobs !! (i + j)) as [job|]; [|done]. simpl.
  by rewrite analyze_single_job_entry.
Qed.

Lemma omap_Ok {B : Type} (l : list B) :
  omap (λ r : res B, match r with Ok d => Some d | Raise _ => None end) (Ok <$> l) = l.
Proof. induction l as [|x l IH]; [done|]. cbn. by f_equal. Qed.

Lemma batch_loop_chunks (starts : list nat) (analyzed : list (gmap string json)) :
  batch_loop json_loads exn_text jobs requirements llm running starts analyzed
  = analyzed ++ concat ((λ i, take batch_size (drop i (entries json_loads exn_text requirements llm jobs))) <$> starts).
Proof.
  revert analyzed. induction starts as [|i starts IH]; intros analyzed.
  - simpl. by rewrite app_nil_r.
  - cbn [batch_loop]. rewrite never_stopped. cbn [negb].
    rewrite IH, batch_results, omap_Ok. cbn [fmap list_fmap concat].
    by rewrite <-(assoc_L (++)).
Qed.

Lemma batch_loop_entries :
  batch_loop json_loads exn_text jobs requirements llm running
    (batch_starts (length jobs)) []
  = entries json_loads exn_text requirements llm jobs.
Proof.
  rewrite batch_loop_chunks. simpl.
  destruct (batch_starts_cover (length jobs)) as [-> Hcover].
  rewrite <-list_fmap_compose. apply chunks_concat.
  unfold entries. by rewrite length_imap.
Qed.

End Loop.
End Facts.



(** A verdict whose skills are not a list: evaluating their length raises,
    and the job gets the entry of a failure. *)
Example entry_of_failed_analysis :
  match analyze_single_job loads_sample (λ _, "no len()") (sample_job "Dev")
          sample_request (λ _, reply_count) with
  | Ok entry =>
      Some (entry !! "title", entry !! "relevance_score",
            entry !! "matched_skills", entry !! "error")
  | Raise _ => None
  end
  = Some (Some (JStr "Dev"), Some (JInt 0), Some (JArr []),
          Some (JStr "no len()")).
Proof. vm_compute. reflexivity. Qed.

Example seven_jobs_order :
  titles (analyze_jobs_batch loads_sample (λ _, "error") seven_jobs
            sample_request llm_sample (λ _, true))
  = Some ∘ JStr <$> ["A"; "C"; "E"; "G"; "B"; "D"; "F"].
Proof. vm_compute. reflexivity. Qed.


End BatchFacts.

(** ** The indeed adapter *)

Module IndeedFacts.
Import Indeed Spec.

Lemma gets_app (tr1 tr2 : list event) : gets (tr1 ++ tr2) = gets tr1 ++ gets tr2.
Proof. apply omap_app. Qed.

Lemma nonempty_Some (x : option string) :
  nonempty x = true → ∃ s, x = Some s ∧ s ≠ "".
Proof.
  destruct x as [s|]; simpl; [|done]. intros Hs. exists s. split; [done|].
  intros ->. done.
Qed.

Section Facts.
Variable web : site.
Variable max_jobs : nat.

Lemma titled_job_data (title company : option string) (rest : gmap string json) :
  nonempty title && nonempty company = true →
  titled (<["title" := JStr (default "" title)]>
            (<["company" := JStr (default "" company)]> rest)).
Proof.
  intros [(t & -> & Ht)%nonempty_Some (c & -> & Hc)%nonempty_Some]%andb_true_iff.
  exists t, c. simpl.
  rewrite lookup_insert_eq, lookup_insert_ne, lookup_insert_eq by done. done.
Qed.

(** One card: it changes nothing but the trace (a detail page), or appends
    one titled job. *)
Lemma indeed_card_cases (job : card) (st : state) :
  ∃ details,
    trace (process_card web job st).2 = trace st ++ details
    ∧ Forall (λ ev, ∃ url, ev = EvDetail url) details
    ∧ navigations (process_card web job st).2 = navigations st
    ∧ page_num (process_card web job st).2 = page_num st
    ∧ first_page_retried (process_card web job st).2 = first_page_retried st
    ∧ ((jobs (process_card web job st).2 = jobs st
        ∧ processed_count (process_card web job st).2 = processed_count st)
       ∨ ((process_card web job st).1 = None
          ∧ ∃ job_data, titled job_data
              ∧ jobs (process_card web job st).2 = jobs st ++ [job_data]
              ∧ processed_count (process_card web job st).2
                = S (processed_count st))).
Proof.
  unfold process_card.
  do 5 (destruct (select_first job _) as [?|?];
        [|exists []; rewrite app_nil_r; repeat split; auto; constructor]).
  match goal with
  | |- context [log (EvDetail ?l)] => set (full_link := l)
  end.
  destruct (nonempty (_ ≫= href)) eqn:Hfetched.
  - exists [EvDetail full_link].
    destruct (get_job_description web full_link) as [description|?];
      [|simpl; repeat split; eauto].
    destruct (nonempty _ && nonempty _) eqn:Hboth; simpl;
      (split; [reflexivity|]); (split; [eauto|]); repeat split; auto.
    right. split; [done|]. eexists. split; [|split; reflexivity].
    by apply titled_job_data.
  - exists []. simpl.
    destruct (nonempty _ && nonempty _) eqn:Hboth; simpl; rewrite app_nil_r;
      (split; [reflexivity|]); (split; [constructor|]); repeat split; auto.
    right. split; [done|]. eexists. split; [|split; reflexivity].
    by apply titled_job_data.
Qed.

Lemma process_card_inv (job : card) (st : state) :
  inv max_jobs st → processed_count st < max_jobs → inv max_jobs (process_card web job st).2.
Proof.
  intros [Hc Ht Hg Ho Hm] Hlt.
  destruct (indeed_card_cases job st)
    as (details & Htr & Hdet & Hnav & _ & _ & Hjobs).
  assert (gets details = []) as Hnone.
  { clear Htr. induction Hdet as [|ev l [url ->] _ IH]; [done|]. exact IH. }
  assert (EvBrowserQuit ∉ details) as Hnoquit.
  { intros Hin. rewrite Forall_forall in Hdet.
    by destruct (Hdet _ Hin) as [url ?]. }
  split.
  - destruct Hjobs as [[-> ->]|(_ & jd & _ & -> & ->)]; [done|].
    rewrite length_app. simpl. lia.
  - destruct Hjobs as [[-> _]|(_ & jd & Hjd & -> & _)]; [done|].
    apply Forall_app. split; [done|]. by constructor.
  - rewrite Htr, gets_app, Hnone, app_nil_r, Hnav. done.
  - rewrite Htr. intros [?|?]%elem_of_app; done.
  - destruct Hjobs as [[-> _]|(_ & jd & _ & -> & _)]; [done|].
    rewrite length_app. simpl. lia.
Qed.

Lemma card_loop_inv (cards : list card) (st : state) :
  inv max_jobs st →
  inv max_jobs (card_loop web max_jobs cards st).2
  ∧ navigations (card_loop web max_jobs cards st).2 = navigations st
  ∧ page_num (card_loop web max_jobs cards st).2 = page_num st
  ∧ first_page_retried (card_loop web max_jobs cards st).2 = first_page_retried st
  ∧ (∀ e, (card_loop web max_jobs cards st).1 = Some e → is_Exception e = false).
Proof.
  revert st. induction cards as [|job rest IH]; intros st Hinv; simpl.
  - split_and!; try done.
  - destruct (max_jobs <=? processed_count st) eqn:Hfull; simpl.
    { split_and!; try done. }
    apply Nat.leb_gt in Hfull.
    pose proof (process_card_inv job st Hinv Hfull) as Hinv'.
    destruct (indeed_card_cases job st) as (_ & _ & _ & Hnav & Hpage & Hretry & _).
    destruct (process_card web job st) as [[e|] st'] eqn:Hcard; simpl in *.
    + destruct (is_Exception e) eqn:He.
      * destruct (IH st' Hinv') as (? & -> & -> & -> & ?). split_and!; done.
      * simpl. split_and!; try done. by intros ? [= <-].
    + destruct (IH st' Hinv') as (? & -> & -> & -> & ?). split_and!; done.
Qed.

(** The [while] loop ends within the budget: with more fuel than budget it
    returns, having requested at most [budget] further pages. *)
Lemma page_loop_total (fuel : nat) (url : string) (st : state) :
  inv max_jobs st → budget st < fuel →
  ∃ raised st',
    page_loop web max_jobs fuel url st = Some (raised, st')
    ∧ inv max_jobs st'
    ∧ navigations st' ≤ navigations st + budget st
    ∧ (∀ e, raised = Some e → is_Exception e = false).
Proof.
  revert st. induction fuel as [|fuel IH]; intros st Hinv Hfuel; [lia|].
  cbn [page_loop].
  destruct ((processed_count st <? max_jobs) && (page_num st <? 3)) eqn:Hcond.
  2:{ exists None, st. split_and!; try done; lia. }
  apply andb_true_iff in Hcond as [_ Hpage%Nat.ltb_lt].
  set (st1 := {| jobs := jobs st; processed_count := processed_count st;
                 page_num := page_num st;
                 first_page_retried := first_page_retried st;
                 navigations := S (navigations st);
                 trace := trace st ++ _ |}).
  assert (inv max_jobs st1) as Hinv1.
  { destruct Hinv as [Hc Ht Hg Ho Hm]. split; simpl; try done.
    - rewrite gets_app, length_app. simpl. lia.
    - intros [?|Hin%list_elem_of_singleton]%elem_of_app; done. }
  destruct (results web (navigations st) _) as [page|e].
  2:{ destruct (is_Exception e) eqn:He.
      - exists None, st1. split_and!; try done. simpl. unfold budget. lia.
      - exists (Some e), st1. split_and!; try done.
        + simpl. unfold budget. lia.
        + by intros ? [= <-]. }
  destruct ((page_num st1 =? 1) && (0 <? length (job_cards page))
            && negb (first_page_retried st1)) eqn:Hretry.
  - apply andb_true_iff in Hretry as [[Hone%Nat.eqb_eq _]%andb_true_iff Hnot].
    simpl in Hone, Hnot. apply negb_true_iff in Hnot.
    destruct (IH (turn_page st1 0 true)) as (raised & st' & -> & ? & Hnav & ?).
    + destruct Hinv1. split; done.
    + unfold budget in *. simpl. rewrite Hone, Hnot in Hfuel. lia.
    + exists raised, st'. split_and!; try done.
      unfold budget in *. simpl in Hnav. rewrite Hone, Hnot. lia.
  - destruct (card_loop_inv (job_cards page) st1 Hinv1)
      as (Hinv2 & Hnav2 & Hpage2 & Hretry2 & Hexn).
    destruct (card_loop web max_jobs (job_cards page) st1) as [[e|] st2];
      simpl in *.
    + exists (Some e), st2.
      split_and!;
        first [ done | rewrite Hnav2; unfold budget; lia
              | intros ? [= <-]; by apply Hexn ].
    + destruct (max_jobs <=? processed_count st2).
      * exists None, st2. split_and!; try done.
        rewrite Hnav2. unfold budget. lia.
      * destruct (IH (turn_page st2 (S (page_num st2)) (first_page_retried st2)))
          as (raised & st' & -> & ? & Hnav & ?).
        -- destruct Hinv2. split; done.
        -- unfold budget in *. simpl. rewrite Hpage2, Hretry2. lia.
        -- exists raised, st'. split_and!; try done.
           unfold budget in *. simpl in Hnav.
           rewrite Hnav2, Hpage2, Hretry2 in Hnav. lia.
Qed.

Lemma initial_inv : inv max_jobs (log EvBrowserStart initial).
Proof.
  split; simpl.
  - reflexivity.
  - constructor.
  - reflexivity.
  - intros Hin%list_elem_of_singleton. done.
  - lia.
Qed.

(** The whole method, with fuel for six turns of the loop. *)
Lemma scrape_jobs_total (fuel : nat) (position location : string) :
  6 ≤ fuel →
  ∃ r tr,
    scrape_jobs web max_jobs fuel position location = Some (r, tr)
    ∧ length (gets tr) ≤ 5
    ∧ (EvBrowserQuit ∉ tr)
    ∧ match r with
      | Ok jobs => (Forall titled jobs ∧ length jobs ≤ max_jobs)
      | Raise e => is_Exception e = false
      end.
Proof.
  intros Hfuel. unfold scrape_jobs.
  destruct (start web) as [e|].
  { destruct (is_Exception e) eqn:He; eexists _, _; (split; [reflexivity|]);
      simpl; split_and!; auto; try lia; by intros ?%elem_of_nil. }
  destruct (page_loop_total fuel (search_url position location)
              (log EvBrowserStart initial) initial_inv)
    as (raised & st & -> & [Hc Ht Hg Ho Hm] & Hnav & Hexn).
  { unfold budget. simpl. lia. }
  simpl in Hnav. unfold budget in Hnav. simpl in Hnav.
  destruct raised as [e|].
  - rewrite (Hexn e eq_refl). eexists _, _. split; [reflexivity|].
    split_and!; auto. lia.
  - eexists _, _. split; [reflexivity|]. split_and!; auto. lia.
Qed.



End Facts.
End IndeedFacts.

(** ** The rozee adapter *)

Module RozeeFacts.
Import Rozee Spec.

Section Facts.
Variable web : site.
Variable max_jobs : nat.

Lemma rozee_card_cases (previous : gset string) (job : card)
    (acc : list (gmap string json) * gset string) :
  ∃ raised jobs' current',
    process_card previous job acc = (raised, (jobs', current'))
    ∧ acc.2 ⊆ current'
    ∧ (jobs' = acc.1
       ∨ (raised = None
          ∧ ∃ job_data, jobs' = acc.1 ++ [job_data]
                        ∧ fresh previous current' job_data)).
Proof.
  destruct acc as [jobs current]. unfold process_card.
  destruct (read_card job) as [[[[[[t c] l] h] x] d]|e];
    [|eexists _, _, _; split_and!; eauto].
  cbv zeta. case_bool_decide as Hseen.
  { eexists _, _, _. split_and!; [reflexivity|set_solver|by left]. }
  destruct (or_else (offer_salary job) (Ok "Not Listed")) as [salary|e].
  - eexists _, _, _. split_and!; [reflexivity|set_solver|].
    right. split; [done|]. eexists. split; [reflexivity|].
    exists t, c, l. split_and!; [reflexivity..|done|set_solver].
  - eexists _, _, _. split_and!; [reflexivity|set_solver|by left].
Qed.

Lemma fresh_mono (previous current current' : gset string)
    (job : gmap string json) :
  current ⊆ current' → fresh previous current job → fresh previous current' job.
Proof.
  intros Hsub (t & c & l & ? & ? & ? & ? & ?).
  exists t, c, l. split_and!; [done..|set_solver].
Qed.

(** A card whose title or company lookup fails adds no job. *)
Lemma process_card_untitled (previous : gset string) (job : card)
    (acc : list (gmap string json) * gset string) (e : exn) :
  s_18_text job = Fails e ∨ cname job = Fails e →
  (process_card previous job acc).2.1 = acc.1.
Proof.
  destruct acc as [jobs current]. unfold process_card, read_card, of_lookup, bind.
  intros [->| ->]; [done|]. by destruct (s_18_text job).
Qed.

(** The cards of one page: jobs are only appended, each of them fresh; the
    identity set only grows; the list never passes [max_jobs]; what leaves
    the loop is not an [Exception]. *)
Lemma card_loop_cases (previous : gset string) (cards : list card)
    (acc : list (gmap string json) * gset string) :
  ∃ raised jobs' current' added,
    card_loop max_jobs previous cards acc = (raised, (jobs', current'))
    ∧ jobs' = acc.1 ++ added
    ∧ acc.2 ⊆ current'
    ∧ Forall (fresh previous current') added
    ∧ (length acc.1 ≤ max_jobs → length jobs' ≤ max_jobs)
    ∧ (∀ e, raised = Some e → is_Exception e = false).
Proof.
  revert acc. induction cards as [|job rest IH]; intros acc; cbn [card_loop].
  { destruct acc as [jobs current]. exists None, jobs, current, [].
    split_and!; [done|by rewrite app_nil_r|done|constructor|done|done]. }
  destruct (max_jobs <=? length acc.1) eqn:Hfull.
  { destruct acc as [jobs current]. exists None, jobs, current, [].
    split_and!; [done|by rewrite app_nil_r|done|constructor|done|done]. }
  apply Nat.leb_gt in Hfull.
  destruct (rozee_card_cases previous job acc)
    as (raised & jobs1 & current1 & -> & Hsub1 & Hjobs1).
  assert (∃ added1, jobs1 = acc.1 ++ added1
                    ∧ Forall (fresh previous current1) added1
                    ∧ length jobs1 ≤ max_jobs) as (added1 & -> & Hfresh1 & Hlen1).
  { destruct Hjobs1 as [->|(_ & job_data & -> & Hfresh)].
    - exists []. rewrite app_nil_r. split_and!; [done|constructor|lia].
    - exists [job_data]. split_and!; [done|by constructor|].
      rewrite length_app. simpl. lia. }
  assert (∀ raised' jobs' current' added,
    card_loop max_jobs previous rest (acc.1 ++ added1, current1)
      = (raised', (jobs', current'))
    ∧ jobs' = (acc.1 ++ added1, current1).1 ++ added
    ∧ (acc.1 ++ added1, current1).2 ⊆ current'
    ∧ Forall (fresh previous current') added
    ∧ (length (acc.1 ++ added1, current1).1 ≤ max_jobs → length jobs' ≤ max_jobs)
    ∧ (∀ e, raised' = Some e → is_Exception e = false) →
    ∃ raised jobs' current' added,
      card_loop max_jobs previous rest (acc.1 ++ added1, current1)
        = (raised, (jobs', current'))
      ∧ jobs' = acc.1 ++ added
      ∧ acc.2 ⊆ current'
      ∧ Forall (fresh previous current') added
      ∧ (length acc.1 ≤ max_jobs → length jobs' ≤ max_jobs)
      ∧ (∀ e, raised = Some e → is_Exception e = false)) as Hglue.
  { intros raised' jobs' current' added (Hloop & -> & Hsub & Hfresh & Hlen & Hexn).
    simpl in *. exists raised', (acc.1 ++ added1 ++ added), current', (added1 ++ added).
    split_and!;
      [by rewrite Hloop, <-(assoc_L (++))|done|by etrans|
      |by rewrite (assoc_L (++)); auto|done].
    apply Forall_app. split; [|done].
    eapply Forall_impl; [exact Hfresh1|]. intros ?. by apply fresh_mono. }
  destruct raised as [e|].
  - destruct (is_Exception e) eqn:He.
    + destruct (IH (acc.1 ++ added1, current1)) as (r & j & c & a & H).
      by apply (Hglue r j c a).
    + exists (Some e), (acc.1 ++ added1), current1, added1.
      split_and!; [done..|]. by intros ? [= <-].
  - destruct (IH (acc.1 ++ added1, current1)) as (r & j & c & a & H).
    by apply (Hglue r j c a).
Qed.


(** The loop only appends page requests to the trace and keeps the list
    within [max_jobs]. *)
Lemma page_loop_cases (fuel : nat) (url : string) (st : state)
    (raised : option exn) (st' : state) :
  page_loop web max_jobs fuel url st = Some (raised, st') →
  (∃ more, trace st' = trace st ++ more
           ∧ Forall (λ ev, ∃ u, ev = EvGet u) more)
  ∧ (length (jobs st) ≤ max_jobs → length (jobs st') ≤ max_jobs).
Proof.
  revert st. induction fuel as [|fuel IH]; intros st; [done|].
  cbn [page_loop]. destruct (length (jobs st) <? max_jobs) eqn:Hroom.
  2:{ intros [= <- <-]. split; [|done]. exists []. by rewrite app_nil_r. }
  assert (∃ more,
    trace st ++ [EvGet (url +:+ "/p/" +:+ pretty (page st))] = trace st ++ more
    ∧ Forall (λ ev, ∃ u, ev = EvGet u) more) as Hone.
  { eexists. split; [reflexivity|]. repeat constructor. eauto. }
  destruct (pages web _) as [e|e|cards].
  - intros [= <- <-]. simpl. split; [exact Hone|done].
  - destruct (is_TimeoutException e); intros [= <- <-]; simpl;
      (split; [exact Hone|done]).
  - destruct cards as [|job rest].
    { intros [= <- <-]. simpl. split; [exact Hone|done]. }
    destruct (card_loop_cases (previous_page_jobs st) (job :: rest) (jobs st, ∅))
      as (r & jobs' & current' & added & Hloop & _ & _ & _ & Hlen & _).
    cbn [fst] in Hlen. cbn [jobs page previous_page_jobs trace].
    rewrite Hloop. destruct r as [e|].
    { intros [= <- <-]. simpl. split; [exact Hone|done]. }
    destruct ((1 <? page st) && bool_decide (current' ⊆ previous_page_jobs st)).
    { intros [= <- <-]. simpl. split; [exact Hone|done]. }
    intros [(more & -> & Hmore) Hlen']%IH. simpl in *. split; [|auto].
    exists (EvGet (url +:+ "/p/" +:+ pretty (page st)) :: more).
    split; [by rewrite <-(assoc_L (++))|]. constructor; eauto.
Qed.


(** C8: once the browser is started it is closed on every exit path. *)
Lemma scrape_jobs_teardown (fuel : nat) (position city_code : string)
    (r : res (list (gmap string json))) (tr : list event) :
  chrome web = None →
  scrape_jobs web max_jobs fuel position city_code = Some (r, tr) →
  head tr = Some EvBrowserStart
  ∧ last tr = Some EvBrowserQuit
  ∧ (∀ jobs, r = Ok jobs → length jobs ≤ max_jobs).
Proof.
  intros Hchrome. unfold scrape_jobs. rewrite Hchrome.
  destruct (page_loop web max_jobs fuel _ initial) as [[raised st]|] eqn:Hloop;
    [|done].
  destruct (page_loop_cases _ _ _ _ _ Hloop) as [(more & Htr & _) Hlen].
  simpl in Htr, Hlen. specialize (Hlen ltac:(lia)).
  assert (head (trace st ++ [EvBrowserQuit]) = Some EvBrowserStart
          ∧ last (trace st ++ [EvBrowserQuit]) = Some EvBrowserQuit) as [??].
  { rewrite Htr. split; [done|]. by rewrite last_snoc. }
  destruct (quit web); [by intros [= <- <-]|].
  destruct raised as [e|]; [destruct (is_KeyboardInterrupt e)|];
    intros [= <- <-]; split_and!; try done; by intros ? [= <-].
Qed.



Lemma scrape_jobs_bounded (fuel : nat) (position city_code : string)
    (jobs : list (gmap string json)) (tr : list event) :
  scrape_jobs web max_jobs fuel position city_code = Some (Ok jobs, tr) →
  length jobs ≤ max_jobs.
Proof.
  intros Hrun. destruct (chrome web) as [e|] eqn:Hchrome.
  { unfold scrape_jobs in Hrun. by rewrite Hchrome in Hrun. }
  destruct (scrape_jobs_teardown _ _ _ _ _ Hchrome Hrun) as (_ & _ & Hlen).
  by apply Hlen.
Qed.

End Facts.
End RozeeFacts.

(** ** The linkedin adapter *)

Module LinkedInFacts.
Import LinkedIn.

Lemma on_data_bounded (experience : string) (records : list EventData)
    (acc : list (gmap string json) * nat) :
  acc.2 = length acc.1 → length acc.1 ≤ max_jobs →
  (foldl (on_data experience) acc records).2
    = length (foldl (on_data experience) acc records).1
  ∧ length (foldl (on_data experience) acc records).1 ≤ max_jobs.
Proof.
  revert acc. induction records as [|data records IH]; intros [jobs n]; simpl;
    [done|].
  intros -> Hlen. apply IH; destruct (length jobs <? max_jobs) eqn:Hroom;
    simpl; try done.
  - rewrite length_app. simpl. lia.
  - apply Nat.ltb_lt in Hroom. rewrite length_app. simpl. lia.
Qed.

Lemma scrape_linkedin_sync_bounded (library : string → string → run)
    (position location experience : string)
    (jobs : list (gmap string json)) (tr : list event) :
  scrape_linkedin_sync library position location experience = Some (Ok jobs, tr) →
  length jobs ≤ max_jobs.
Proof.
  unfold scrape_linkedin_sync.
  destruct (on_data_bounded experience (emitted (library position location)) ([], 0))
    as [_ Hlen]; [done|simpl; unfold max_jobs; lia|].
  destruct (failure _) as [e|].
  - destruct (is_Exception e); intros [= <- <-]; simpl; lia.
  - by intros [= <- <-].
Qed.

End LinkedInFacts.

(** ** The merged list of [search_jobs] *)

Module MainFacts.
Import Main Spec IndeedFacts.

Lemma tag_titled (src : string) (jobs tagged : list (gmap string json)) :
  tag src jobs = Ok tagged → Forall titled jobs → Forall titled tagged.
Proof.
  revert tagged. induction jobs as [|job jobs IH]; intros tagged; simpl.
  - intros [= <-] _. constructor.
  - destruct (job !! "source"); [done|].
    destruct (tag src jobs) as [r|e]; [|done]. simpl.
    intros [= <-] [Hjob Hjobs]%Forall_cons. constructor; [|by apply IH].
    destruct Hjob as (t & c & Ht & ? & Hc & ?). exists t, c.
    by rewrite !lookup_insert_ne.
Qed.

(** Tagging keeps what the scraper returned, or turns a failure into an
    empty list. *)
Lemma get_jobs_titled (src : string) (scraper : M (list (gmap string json)))
    (r : res (list (gmap string json))) (tr : list event) :
  scraper = Some (r, tr) →
  (∀ jobs, r = Ok jobs → Forall titled jobs) →
  ∃ r' tr', get_jobs src scraper = Some (r', tr')
            ∧ ∀ jobs, r' = Ok jobs → Forall titled jobs.
Proof.
  intros -> Hr. unfold get_jobs, try_except, mbind, emit, after, lift, ret.
  destruct r as [jobs|e]; simpl.
  - destruct (tag src jobs) as [tagged|e] eqn:Htag; simpl.
    + eexists _, _. split; [reflexivity|]. intros ? [= <-].
      eapply tag_titled; eauto.
    + destruct (is_Exception e); eexists _, _; (split; [reflexivity|]);
        intros ? [= <-]. constructor.
  - destruct (is_Exception e); eexists _, _; (split; [reflexivity|]);
      intros ? [= <-]. constructor.
Qed.

End MainFacts.
(** ** Claims about the adapters *)

Module AdapterClaims.
Import Spec Samples.

(** *** Titles and companies *)

(** C2, as stated, fails: the linkedin adapter forwards every record as it
    is, so a record without a title reaches the merged list handed to the
    analyzer. *)
Lemma canonical_job_without_title :
  collected (Main.collect_jobs (world reply_150) 6
               (request ["linkedin"]))
  = Some ([(Some (JStr ""), Some (JStr "Acme"), Some (JStr "linkedin"))],
          [EvAdapter "linkedin"]).
Proof. vm_compute. reflexivity. Qed.

(** The rozee adapter keeps a listing whose title element has no text. *)
Example rozee_keeps_empty_title :
  titles_of
    (Rozee.process_card ∅
       (rozee_card "" "Lahore" (Rozee.Found "100K")) ([], ∅)).2.1
  = [Some (JStr "")].
Proof. vm_compute. reflexivity. Qed.

(** C2, amended.  Every job the indeed adapter hands to the merged list has
    a non-empty title and a non-empty company; the rozee adapter adds no job
    for a card whose title or company lookup fails. *)
Theorem indeed_jobs_titled :
  (∀ (w : Main.world) (fuel : nat) (request : JobRequest),
     6 ≤ fuel →
     ∃ r tr, Main.get_indeed_jobs w fuel request = Some (r, tr)
             ∧ ∀ jobs, r = Ok jobs → Forall titled jobs)
  ∧ (∀ (previous : gset string) (job : Rozee.card)
       (acc : list (gmap string json) * gset string) (e : exn),
       Rozee.s_18_text job = Rozee.Fails e ∨ Rozee.cname job = Rozee.Fails e →
       (Rozee.process_card previous job acc).2.1 = acc.1).
Proof.
  split.
  - intros w fuel request Hfuel. unfold Main.get_indeed_jobs.
    destruct (IndeedFacts.scrape_jobs_total (Main.indeed w) 10 fuel
                (position request) (location request) Hfuel)
      as (r & tr & Hrun & _ & _ & Hr).
    eapply MainFacts.get_jobs_titled; [exact Hrun|].
    intros jobs ->. apply Hr.
  - apply RozeeFacts.process_card_untitled.
Qed.

Lemma indeed_jobs_titled_witness :
  ∃ r tr,
    Main.get_indeed_jobs (world reply_150) 6 (request ["indeed"])
    = Some (r, tr)
    ∧ ∀ jobs, r = Ok jobs → Forall titled jobs.
Proof. apply (proj1 indeed_jobs_titled). lia. Defined.

(** *** Duplicate detection of the rozee adapter *)



End AdapterClaims.

(** ** Failure handling and bounds of the adapters *)

Module LoopClaims.
Import Spec Samples.

(** *** Failing soft *)




End LoopClaims.

(** ** Bounds of the pagination loops *)

Module BoundClaims.
Import Spec Samples.






Example indeed_five_pages :
  ran (Indeed.scrape_jobs indeed_full 10 6 "dev" "Lahore")
  = ([],
     [EvBrowserStart;
      EvGet "https://pk.indeed.com/jobs?q=dev&l=Lahore&sort=date&start=0";
      EvDetail "https://pk.indeed.com/job/0";
      EvGet "https://pk.indeed.com/jobs?q=dev&l=Lahore&sort=date&start=10";
      EvGet "https://pk.indeed.com/jobs?q=dev&l=Lahore&sort=date&start=0";
      EvDetail "https://pk.indeed.com/job/0";
      EvGet "https://pk.indeed.com/jobs?q=dev&l=Lahore&sort=date&start=10";
      EvDetail "https://pk.indeed.com/job/0";
      EvGet "https://pk.indeed.com/jobs?q=dev&l=Lahore&sort=date&start=20";
      EvDetail "https://pk.indeed.com/job/0"]).
Proof. vm_compute. reflexivity. Qed.

(** With one new listing per page the rozee adapter goes on for as many
    pages as [max_jobs] asks for. *)
Example rozee_ten_pages :
  match Rozee.scrape_jobs rozee_growing 10 11 "dev" "1184" with
  | Some (Ok jobs, tr) => Some (length jobs, length (gets tr))
  | _ => None
  end = Some (10, 10).
Proof. vm_compute. reflexivity. Qed.


End BoundClaims.

(** ** The gate, on a sample world *)

Module GateWitness.
Import Spec Samples.

Lemma search_jobs_probe_failure_witness :
  Main.search_jobs loads_sample (λ _, "error") Ok
    (world (Analyzer.Response 502 None)) 6
    (request ["indeed"; "linkedin"; "rozee"])
  = Some (Raise (HTTPException 500 "error"), [EvProbe]).
Proof.
  apply (GateFacts.search_jobs_probe_failure _ (λ _, "error") _ _ _ _
           "http://localhost:11434"); reflexivity.
Defined.

End GateWitness.

(** ** Strings *)

Module StringFacts.

Lemma string_app_cons (x : ascii) (a b : string) :
  String x a +:+ b = String x (a +:+ b).
Proof. reflexivity. Qed.

Lemma string_app_nil_l (b : string) : "" +:+ b = b.
Proof. reflexivity. Qed.

Lemma string_app_assoc (a b c : string) : (a +:+ b) +:+ c = a +:+ b +:+ c.
Proof.
  induction a as [|x a IH]; [done|]. by rewrite !string_app_cons, IH.
Qed.

Lemma string_app_nil_r (a : string) : a +:+ "" = a.
Proof. induction a as [|x a IH]; [done|]. by rewrite string_app_cons, IH. Qed.

Lemma string_length_app (a b : string) :
  String.length (a +:+ b) = String.length a + String.length b.
Proof.
  induction a as [|x a IH]; [done|]. rewrite string_app_cons. simpl. by rewrite IH.
Qed.

Lemma substring_app (a b : string) : substring 0 (String.length a) (a +:+ b) = a.
Proof.
  induction a as [|x a IH].
  - rewrite string_app_nil_l. by destruct b.
  - rewrite string_app_cons. simpl. by rewrite IH.
Qed.

Lemma consumed_app (a b : string) : Re.consumed (a +:+ b) b = a.
Proof.
  unfold Re.consumed. rewrite string_length_app.
  replace (String.length a + String.length b - String.length b)
    with (String.length a) by lia.
  apply substring_app.
Qed.





End StringFacts.

(** ** The matcher against the meaning of the patterns *)

Module MatcherFacts.
Import Re Matching StringFacts.

(** Whatever [run] hands to its continuation is a match of the pattern. *)
Lemma run_sound (r : regex) :
  ∀ s cap k m, run r s cap k = Some m →
  ∃ s1 cap1, matches r s cap s1 cap1 ∧ k s1 cap1 = Some m.
Proof.
  induction r as [|cs|d|r1 IH1 r2 IH2|r1 IH1|r1 IH1|r1 IH1]; intros s cap k m; cbn [run].
  - intros Hk. eauto using matches.
  - destruct s as [|c s']; [done|]. destruct (in_cset cs c) eqn:Hc; [|done].
    intros Hk. eauto using matches.
  - destruct s as [|c s']; [done|].
    destruct (Ascii.eqb (lower c) (lower d)) eqn:Hc; [|done].
    intros Hk. eauto using matches.
  - intros (s1 & cap1 & Hm1 & (s2 & cap2 & Hm2 & Hk)%IH2)%IH1.
    eauto using matches.
  - destruct (run r1 s cap k) as [m'|] eqn:Hrun.
    + intros [= <-]. apply IH1 in Hrun as (s1 & cap1 & ? & ?). eauto using matches.
    + intros Hk. eauto using matches.
  - generalize (String.length s) at 1. intros n. revert s cap.
    induction n as [|n IHn]; intros s cap.
    + match goal with |- context [run r1 s cap ?k'] =>
        destruct (run r1 s cap k') as [m'|] eqn:Hrun end.
      * apply IH1 in Hrun as (s1 & cap1 & _ & Hk). by destruct (_ <? _).
      * intros Hk. eauto using matches.
    + match goal with |- context [run r1 s cap ?k'] =>
        destruct (run r1 s cap k') as [m'|] eqn:Hrun end.
      * intros [= <-]. apply IH1 in Hrun as (s1 & cap1 & Hm1 & Hk).
        destruct (_ <? _); [|done].
        apply IHn in Hk as (s2 & cap2 & ? & ?). eauto using matches.
      * intros Hk. eauto using matches.
  - intros (s1 & cap1 & Hm1 & Hk)%IH1. eauto using matches.
Qed.

(** A match consumes a prefix of its input. *)
Lemma matches_suffix r s cap s1 cap1 :
  matches r s cap s1 cap1 → ∃ pre, s = pre +:+ s1.
Proof.
  induction 1 as [s cap|cs c s cap _|d c s cap _
                 |r1 r2 s cap s1 cap1 s2 cap2 _ [p1 ->] _ [p2 ->]
                 |r s cap s1 cap1 _ IH|r s cap|r s cap
                 |r s cap s1 cap1 s2 cap2 _ [p1 ->] _ [p2 ->]
                 |r s cap s1 cap1 _ IH].
  - by exists "".
  - by exists (String c "").
  - by exists (String c "").
  - exists (p1 +:+ p2). by rewrite string_app_assoc.
  - done.
  - by exists "".
  - by exists "".
  - exists (p1 +:+ p2). by rewrite string_app_assoc.
  - done.
Qed.

Lemma matches_group_free r s cap s1 cap1 :
  matches r s cap s1 cap1 → group_free r = true → cap1 = cap.
Proof.
  induction 1 as [| | |r1 r2 s cap s1 cap1 s2 cap2 _ IH1 _ IH2
                 |r s cap s1 cap1 _ IH| |
                 |r s cap s1 cap1 s2 cap2 _ IH1 _ IH2|]; simpl; try done.
  - intros [??]%andb_true_iff. rewrite IH2, IH1; done.
  - intros ?. rewrite IH2, IH1; done.
Qed.

Lemma has_digit_app (a b : string) :
  has_digit (a +:+ b) = has_digit a || has_digit b.
Proof.
  induction a as [|x a IH]; [done|]. rewrite string_app_cons. simpl.
  by rewrite IH, orb_assoc.
Qed.

Lemma matches_head_digit r s cap s1 cap1 :
  matches r s cap s1 cap1 → head_digit r = true →
  ∃ d pre, s = String d (pre +:+ s1) ∧ is_digit d = true.
Proof.
  induction 1 as [s cap|cs c s cap Hc|d c s cap _
                 |r1 r2 s cap s1 cap1 s2 cap2 _ IH1 H2 _
                 |r s cap s1 cap1 _ IH|r s cap|r s cap
                 |r s cap s1 cap1 s2 cap2 _ _ _ _
                 |r s cap s1 cap1 _ IH]; simpl; try done.
  - destruct cs; try done. intros _. by exists c, "".
  - intros (d & pre & -> & Hd)%IH1.
    apply matches_suffix in H2 as [p2 ->].
    exists d, (pre +:+ p2). by rewrite string_app_assoc.
Qed.

Lemma matches_captures_digit r s cap s1 cap1 :
  matches r s cap s1 cap1 → captures_digit r = true → leading_digit cap1 = true.
Proof.
  induction 1 as [s cap|cs c s cap Hc|d c s cap _
                 |r1 r2 s cap s1 cap1 s2 cap2 _ IH1 H2 IH2
                 |r s cap s1 cap1 _ IH|r s cap|r s cap
                 |r s cap s1 cap1 s2 cap2 _ _ _ _
                 |r s cap s1 cap1 H IH]; simpl; try done.
  - intros [?|[??]%andb_true_iff]%orb_true_iff; [auto|].
    rewrite (matches_group_free _ _ _ _ _ H2) by done. auto.
  - intros (d & pre & -> & Hd)%(matches_head_digit _ _ _ _ _ H).
    change (String d (pre +:+ s1)) with (String d pre +:+ s1).
    by rewrite consumed_app.
Qed.

Lemma matches_needs_digit r s cap s1 cap1 :
  matches r s cap s1 cap1 → needs_digit r = true → has_digit s = true.
Proof.
  induction 1 as [s cap|cs c s cap Hc|d c s cap _
                 |r1 r2 s cap s1 cap1 s2 cap2 H1 IH1 H2 IH2
                 |r s cap s1 cap1 _ IH|r s cap|r s cap
                 |r s cap s1 cap1 s2 cap2 _ _ _ _
                 |r s cap s1 cap1 H IH]; simpl; try done.
  - destruct cs; try done. simpl in Hc. by rewrite Hc.
  - intros [?|?]%orb_true_iff; [auto|].
    apply matches_suffix in H1 as [p1 ->]. rewrite has_digit_app, IH2 by done.
    apply orb_true_r.
Qed.




(** The first item of [findall] is the group of a match that starts somewhere
    in the text. *)
Lemma findall_from_head (fuel : nat) (r : regex) (s m : string) (l : list string) :
  findall_from fuel r s = m :: l →
  ∃ pre s0 s1, s = pre +:+ s0 ∧ matches r s0 "" s1 m.
Proof.
  revert s. induction fuel as [|fuel IH]; intros s; cbn [findall_from]; [done|].
  destruct (match_here r s) as [[cap rest]|] eqn:Hhere.
  - intros Hm. assert (cap = m) as -> by (destruct (_ <? _); congruence).
    apply run_sound in Hhere as (s1 & cap1 & Hmatch & [= -> ->]).
    by exists "", s, rest.
  - destruct s as [|c s']; [done|].
    intros (pre & s0 & s1 & -> & ?)%IH. by exists (String c pre), s0, s1.
Qed.

End MatcherFacts.

(** ** [extract_experience] on every text *)

Module ExperienceValueFacts.
Import Re Matching StringFacts MatcherFacts Normalizer.

(** What a value other than the default comes from. *)
Lemma first_experience_found (patterns : list regex) (text : string) :
  first_experience patterns text = "Not specified"
  ∨ ∃ r m pre s0 s1,
      r ∈ patterns ∧ text = pre +:+ s0 ∧ matches r s0 "" s1 m
      ∧ first_experience patterns text = m +:+ " years".
Proof.
  induction patterns as [|r patterns IH]; simpl; [by left|].
  destruct (findall r text) as [|m l] eqn:Hall.
  - destruct IH as [?|(r' & m & pre & s0 & s1 & ? & ? & ? & ?)]; [by left|].
    right. exists r', m, pre, s0, s1. split_and!; try done. by right.
  - right. apply findall_from_head in Hall as (pre & s0 & s1 & ? & ?).
    exists r, m, pre, s0, s1. split_and!; try done. by left.
Qed.

(** X1.  A text without a digit has no experience value: every pattern
    needs at least one digit. *)
Theorem extract_experience_needs_digit (text : string) :
  has_digit text = false → extract_experience text = "Not specified".
Proof.
  intros Hno. unfold extract_experience.
  destruct (first_experience_found experience_patterns text)
    as [?|(r & m & pre & s0 & s1 & Hr & -> & Hm & _)]; [done|].
  exfalso. assert (needs_digit r = true) as Hneeds.
  { revert Hr. unfold experience_patterns.
    rewrite !elem_of_cons, elem_of_nil. intros [->|[->|[->|[->|[]]]]]; reflexivity. }
  pose proof (matches_needs_digit _ _ _ _ _ Hm Hneeds) as Hd.
  rewrite has_digit_app, Hd, orb_true_r in Hno. done.
Qed.

Lemma extract_experience_needs_digit_witness :
  has_digit "Senior Python developer, experience required" = false
  ∧ extract_experience "Senior Python developer, experience required" = "Not specified".
Proof.
  split; [reflexivity|]. apply extract_experience_needs_digit. reflexivity.
Defined.



(** X3.  The value is the default, or the text of the group followed by
    " years", and that group starts with a digit. *)
Theorem extract_experience_shape (text : string) :
  extract_experience text = "Not specified"
  ∨ ∃ m, extract_experience text = m +:+ " years" ∧ leading_digit m = true.
Proof.
  unfold extract_experience.
  destruct (first_experience_found experience_patterns text)
    as [?|(r & m & pre & s0 & s1 & Hr & -> & Hm & Hval)]; [by left|].
  right. exists m. split; [done|].
  apply (matches_captures_digit _ _ _ _ _ Hm).
  revert Hr. unfold experience_patterns.
  rewrite !elem_of_cons, elem_of_nil. intros [->|[->|[->|[->|[]]]]]; reflexivity.
Qed.

End ExperienceValueFacts.

(** ** The records of the indeed adapter *)

Module IndeedRecordFacts.
Import Indeed Spec Shape StringFacts.

Section Facts.
Variable web : site.
Variable max_jobs : nat.

Lemma full_link_absolute (link : option string) :
  let full_link :=
    match link with
    | Some h =>
        if String.eqb h "" then "No link available"
        else if startswith "/" h then base_url +:+ h else h
    | None => "No link available"
    end in
  full_link ≠ "" ∧ startswith "/" full_link = false.
Proof.
  destruct link as [h|]; [|done]. simpl.
  destruct (String.eqb h "") eqn:Hempty; [done|].
  apply String.eqb_neq in Hempty.
  destruct (startswith "/" h) eqn:Hroot; [|done].
  split; [|reflexivity]. unfold base_url. by rewrite string_app_cons.
Qed.

Lemma str_or_nonempty (x : option string) (dflt : string) :
  dflt ≠ "" → str_or x dflt ≠ "".
Proof.
  intros Hd. destruct x as [s|]; simpl; [|done].
  destruct (String.eqb s "") eqn:Hs; [done|]. by apply String.eqb_neq.
Qed.

(** One card adds nothing or one record. *)
Lemma indeed_card_record (job : card) (st : state) :
  jobs (process_card web job st).2 = jobs st
  ∨ ∃ job_data, indeed_record job_data
                ∧ jobs (process_card web job st).2 = jobs st ++ [job_data].
Proof.
  unfold process_card.
  do 5 (destruct (select_first job _) as [?|?]; [|by left]).
  match goal with
  | |- context [log (EvDetail ?l)] => set (full_link := l)
  end.
  assert (full_link ≠ "" ∧ startswith "/" full_link = false) as [Hlink Hroot]
    by apply full_link_absolute.
  match goal with
  | |- context [if ?b then get_job_description _ _ else _] =>
      destruct b; 
      [destruct (get_job_description web full_link) as [description|?]; [|by left]|]
  end.
  all: destruct (nonempty _ && nonempty _) eqn:Hboth; [|by left].
  all: apply andb_true_iff in Hboth
         as [(t & -> & Ht)%IndeedFacts.nonempty_Some (c & -> & Hc)%IndeedFacts.nonempty_Some].
  all: right; eexists; split; [|reflexivity].
  all: eexists t, c, _, full_link, _, _; simpl.
  all: split_and!; try done; try reflexivity.
  all: try (by apply str_or_nonempty).
Qed.

Lemma indeed_card_loop_records (cards : list card) (st : state) :
  Forall indeed_record (jobs st) →
  Forall indeed_record (jobs (card_loop web max_jobs cards st).2).
Proof.
  revert st. induction cards as [|job rest IH]; intros st Hst; simpl; [done|].
  destruct (max_jobs <=? processed_count st); [done|].
  assert (Forall indeed_record (jobs (process_card web job st).2)) as Hnext.
  { destruct (indeed_card_record job st) as [->|(jd & Hjd & ->)]; [done|].
    apply Forall_app. split; [done|]. by constructor. }
  destruct (process_card web job st) as [[e|] st']; simpl in Hnext.
  - destruct (is_Exception e); [by apply IH|done].
  - by apply IH.
Qed.

Lemma indeed_page_loop_records (fuel : nat) (url : string) (st : state)
    (raised : option exn) (st' : state) :
  page_loop web max_jobs fuel url st = Some (raised, st') →
  Forall indeed_record (jobs st) → Forall indeed_record (jobs st').
Proof.
  revert st. induction fuel as [|fuel IH]; intros st; [done|]. cbn [page_loop].
  destruct (_ && _); [|by intros [= <- <-]].
  destruct (results web _ _) as [page|e].
  2:{ destruct (is_Exception e); by intros [= <- <-]. }
  destruct (_ && _ && _).
  { intros Hloop Hst. by apply (IH _ Hloop). }
  match goal with
  | |- context [card_loop web max_jobs ?cards ?st1] =>
      pose proof (indeed_card_loop_records cards st1) as Hcards;
      destruct (card_loop web max_jobs cards st1) as [[e|] st2]
  end; simpl in Hcards.
  - intros [= <- <-]. exact Hcards.
  - destruct (max_jobs <=? processed_count st2).
    + intros [= <- <-]. exact Hcards.
    + intros Hloop Hst. apply (IH _ Hloop). simpl. by apply Hcards.
Qed.

Lemma indeed_scrape_jobs_records (fuel : nat) (position location : string)
    (found : list (gmap string json)) (tr : list event) :
  scrape_jobs web max_jobs fuel position location = Some (Ok found, tr) →
  Forall indeed_record found.
Proof.
  unfold scrape_jobs. destruct (start web) as [e|].
  { destruct (is_Exception e); intros [= <- <-]; constructor. }
  destruct (page_loop web max_jobs fuel _ _) as [[[e|] st]|] eqn:Hloop; [| |done].
  - destruct (is_Exception e); intros [= <- <-]; constructor.
  - intros [= <- <-]. apply (indeed_page_loop_records _ _ _ _ _ Hloop). constructor.
Qed.

End Facts.
End IndeedRecordFacts.

(** ** The pages the indeed adapter requests *)

Module IndeedPagingFacts.
Import Indeed Spec Paging.

Section Facts.
Variable web : site.
Variable max_jobs : nat.

(** The cards of a page request no page of results and leave the page
    counters alone. *)
Lemma indeed_card_loop_gets (cards : list card) (st : state) :
  gets (trace (card_loop web max_jobs cards st).2) = gets (trace st)
  ∧ page_num (card_loop web max_jobs cards st).2 = page_num st
  ∧ first_page_retried (card_loop web max_jobs cards st).2 = first_page_retried st.
Proof.
  revert st. induction cards as [|job rest IH]; intros st; simpl; [done|].
  destruct (max_jobs <=? processed_count st); [done|].
  destruct (IndeedFacts.indeed_card_cases web job st)
    as (details & Htr & Hdet & _ & Hpage & Hretry & _).
  assert (gets details = []) as Hnone.
  { clear Htr. induction Hdet as [|ev l [url ->] _ IHd]; [done|]. exact IHd. }
  assert (gets (trace (process_card web job st).2) = gets (trace st)) as Hgets.
  { by rewrite Htr, IndeedFacts.gets_app, Hnone, app_nil_r. }
  destruct (process_card web job st) as [[e|] st']; simpl in *.
  - destruct (is_Exception e); [|done].
    destruct (IH st') as (-> & -> & ->). done.
  - destruct (IH st') as (-> & -> & ->). done.
Qed.

Lemma indeed_future_nil (p : nat) (retried : bool) : indeed_future p retried [].
Proof. left. apply prefix_nil. Qed.

Lemma indeed_future_one (p : nat) (retried : bool) :
  p < 3 → indeed_future p retried [p].
Proof.
  intros Hp. left. replace (3 - p) with (S (2 - p)) by lia. simpl.
  apply prefix_cons, prefix_nil.
Qed.

Lemma indeed_future_next (p : nat) (retried : bool) (pages : list nat) :
  p < 3 → indeed_future (S p) retried pages → indeed_future p retried (p :: pages).
Proof.
  intros Hp [Hpre|(-> & Hle & Hpre)].
  - left. replace (3 - p) with (S (3 - S p)) by lia. simpl. by apply prefix_cons.
  - right. split; [done|]. split; [lia|].
    replace (2 - p) with (S (2 - S p)) by lia. simpl. by apply prefix_cons.
Qed.

Lemma indeed_future_retry (pages : list nat) :
  indeed_future 0 true pages → indeed_future 1 false (1 :: pages).
Proof.
  intros [Hpre|([=] & _)]. right. split; [done|]. split; [lia|].
  simpl in *. by apply prefix_cons.
Qed.

(** The pages requested from a state on follow its schedule. *)
Lemma indeed_page_loop_schedule (fuel : nat) (url : string) (st : state)
    (raised : option exn) (st' : state) :
  page_loop web max_jobs fuel url st = Some (raised, st') →
  ∃ pages,
    gets (trace st') = gets (trace st) ++ (indeed_page_url url <$> pages)
    ∧ indeed_future (page_num st) (first_page_retried st) pages.
Proof.
  revert st. induction fuel as [|fuel IH]; intros st; [done|]. cbn [page_loop].
  destruct ((processed_count st <? max_jobs) && (page_num st <? 3)) eqn:Hcond.
  2:{ intros [= <- <-]. exists []. rewrite app_nil_r. split; [done|].
      apply indeed_future_nil. }
  apply andb_true_iff in Hcond as [_ Hpage%Nat.ltb_lt].
  assert (∀ st1, gets (trace st1)
            = gets (trace st ++ [EvGet (url +:+ "&start=" +:+ pretty (page_num st * 10))]) →
          gets (trace st1) = gets (trace st) ++ (indeed_page_url url <$> [page_num st]))
    as Hone.
  { intros st1 ->. by rewrite IndeedFacts.gets_app. }
  destruct (results web _ _) as [page|e].
  2:{ destruct (is_Exception e); intros [= <- <-]; exists [page_num st];
        (split; [by apply Hone|by apply indeed_future_one]). }
  destruct ((_ =? 1) && _ && _) eqn:Hretry.
  - apply andb_true_iff in Hretry as [[Hfirst%Nat.eqb_eq _]%andb_true_iff Hnot].
    simpl in Hfirst, Hnot. apply negb_true_iff in Hnot.
    intros (pages & Hgets & Hfuture)%IH. simpl in Hgets, Hfuture.
    exists (page_num st :: pages). split.
    + rewrite Hgets, IndeedFacts.gets_app. simpl. by rewrite <-(assoc_L (++)).
    + rewrite Hfirst, Hnot. by apply indeed_future_retry.
  - match goal with
    | |- context [card_loop web max_jobs ?cards ?st1] =>
        destruct (indeed_card_loop_gets cards st1) as (Hgets2 & Hpage2 & Hretry2);
        destruct (card_loop web max_jobs cards st1) as [[e|] st2]
    end; simpl in Hgets2, Hpage2, Hretry2.
    + intros [= <- <-]. exists [page_num st].
      split; [by apply Hone|by apply indeed_future_one].
    + destruct (max_jobs <=? processed_count st2).
      * intros [= <- <-]. exists [page_num st].
        split; [by apply Hone|by apply indeed_future_one].
      * intros (pages & Hgets & Hfuture)%IH. simpl in Hgets, Hfuture.
        exists (page_num st :: pages). split.
        -- rewrite Hgets, Hgets2, IndeedFacts.gets_app. simpl.
           by rewrite <-(assoc_L (++)).
        -- rewrite Hpage2, Hretry2 in Hfuture. by apply indeed_future_next.
Qed.

End Facts.
End IndeedPagingFacts.

(** ** The records and the pages of the rozee adapter *)

Module RozeeRecordFacts.
Import Rozee Spec Shape Paging.

Section Facts.
Variable web : site.
Variable max_jobs : nat.

(** One card adds nothing or one record. *)
Lemma rozee_card_record (previous : gset string) (job : card)
    (acc : list (gmap string json) * gset string) :
  (process_card previous job acc).2.1 = acc.1
  ∨ ∃ job_data, rozee_record job_data
                ∧ (process_card previous job acc).2.1 = acc.1 ++ [job_data].
Proof.
  destruct acc as [found current]. unfold process_card.
  destruct (read_card job) as [[[[[[t c] l] h] x] d]|e]; [|by left].
  cbv zeta. case_bool_decide; [by left|].
  destruct (or_else (offer_salary job) (Ok "Not Listed")) as [s|e]; [|by left].
  right. eexists. split; [|reflexivity].
  exists t, c, l, x, h, d, s. split_and!; reflexivity.
Qed.

Lemma rozee_card_loop_records (previous : gset string) (cards : list card)
    (acc : list (gmap string json) * gset string) :
  Forall rozee_record acc.1 →
  Forall rozee_record (card_loop max_jobs previous cards acc).2.1.
Proof.
  revert acc. induction cards as [|job rest IH]; intros acc Hacc; simpl; [done|].
  destruct (max_jobs <=? length acc.1); [done|].
  assert (Forall rozee_record (process_card previous job acc).2.1) as Hnext.
  { destruct (rozee_card_record previous job acc) as [->|(jd & Hjd & ->)]; [done|].
    apply Forall_app. split; [done|]. by constructor. }
  destruct (process_card previous job acc) as [[e|] acc']; simpl in Hnext.
  - destruct (is_Exception e); [by apply IH|done].
  - by apply IH.
Qed.

(** The loop keeps the records and requests the pages in order, one after
    the other, from the page it starts with. *)
Lemma rozee_page_loop_pages (fuel : nat) (url : string) (st : state)
    (raised : option exn) (st' : state) :
  page_loop web max_jobs fuel url st = Some (raised, st') →
  (Forall rozee_record (jobs st) → Forall rozee_record (jobs st'))
  ∧ ∃ n, gets (trace st')
         = gets (trace st) ++ (rozee_page_url url <$> seq (page st) n).
Proof.
  revert st. induction fuel as [|fuel IH]; intros st; [done|]. cbn [page_loop].
  destruct (length (jobs st) <? max_jobs).
  2:{ intros [= <- <-]. split; [done|]. exists 0. by rewrite app_nil_r. }
  assert (∃ n, gets (trace st ++ [EvGet (url +:+ "/p/" +:+ pretty (page st))])
               = gets (trace st) ++ (rozee_page_url url <$> seq (page st) n)) as Hone.
  { exists 1. by rewrite IndeedFacts.gets_app. }
  destruct (pages web _) as [e|e|cards].
  - intros [= <- <-]. by split.
  - destruct (is_TimeoutException e); intros [= <- <-]; by split.
  - destruct cards as [|job rest]; [intros [= <- <-]; by split|].
    pose proof (rozee_card_loop_records (previous_page_jobs st) (job :: rest)
                  (jobs st, ∅)) as Hcards.
    cbn [jobs page previous_page_jobs trace].
    destruct (card_loop max_jobs _ _ _) as [r [jobs' current']].
    simpl in Hcards. destruct r as [e|].
    { intros [= <- <-]. by split. }
    destruct (_ && _).
    { intros [= <- <-]. by split. }
    intros [Hrec [n Hgets]]%IH. simpl in Hrec, Hgets. split; [auto|].
    exists (S n). rewrite Hgets, IndeedFacts.gets_app. simpl.
    by rewrite <-(assoc_L (++)).
Qed.

Lemma rozee_scrape_jobs_records (fuel : nat) (position city_code : string)
    (found : list (gmap string json)) (tr : list event) :
  scrape_jobs web max_jobs fuel position city_code = Some (Ok found, tr) →
  Forall rozee_record found.
Proof.
  unfold scrape_jobs. destruct (chrome web); [done|].
  destruct (page_loop web max_jobs fuel _ initial) as [[raised st]|] eqn:Hloop;
    [|done].
  apply rozee_page_loop_pages in Hloop as [Hrec _].
  specialize (Hrec ltac:(constructor)).
  destruct (quit web); [done|].
  destruct raised as [e|]; [destruct (is_KeyboardInterrupt e)|];
    intros [= <- <-]; done.
Qed.

End Facts.
End RozeeRecordFacts.

(** ** The records of the linkedin adapter *)

Module LinkedInRecordFacts.
Import LinkedIn Shape.

Lemma on_data_step (experience : string) (found : list (gmap string json)) (n : nat)
    (data : EventData) :
  on_data experience (found, n) data
  = if (n <? max_jobs)%nat then (found ++ linkedin_job experience data, S n)
    else (found, n).
Proof. reflexivity. Qed.

(** The callback keeps the records it is handed while there is room, in
    their order, and ignores the others. *)
Lemma on_data_fold (experience : string) (records : list EventData)
    (found : list (gmap string json)) (n : nat) :
  (foldl (on_data experience) (found, n) records).1
  = found ++ (take (max_jobs - n) records ≫= linkedin_job experience).
Proof.
  revert found n. induction records as [|data records IH]; intros found n.
  - by rewrite take_nil, app_nil_r.
  - cbn [foldl]. rewrite on_data_step.
    destruct (n <? max_jobs) eqn:Hroom.
    + apply Nat.ltb_lt in Hroom. rewrite IH.
      replace (max_jobs - n) with (S (max_jobs - S n)) by lia.
      cbn [take]. rewrite bind_cons. by rewrite <-(assoc_L (++)).
    + apply Nat.ltb_ge in Hroom. rewrite IH.
      by replace (max_jobs - n) with 0 by lia.
Qed.

Lemma linkedin_job_keys (experience : string) (data : EventData) :
  Forall (λ job : gmap string json, dom job = job_keys ∧ job !! "source" = None)
    (linkedin_job experience data).
Proof.
  unfold linkedin_job, on_data. cbn [Nat.ltb Nat.leb max_jobs fst app].
  constructor; [|constructor]. split; reflexivity.
Qed.

Lemma scrape_linkedin_sync_keys (library : string → string → run)
    (position location experience : string)
    (found : list (gmap string json)) (tr : list event) :
  scrape_linkedin_sync library position location experience = Some (Ok found, tr) →
  Forall (λ job : gmap string json, dom job = job_keys ∧ job !! "source" = None) found.
Proof.
  unfold scrape_linkedin_sync. rewrite on_data_fold.
  destruct (failure _) as [e|].
  { destruct (is_Exception e); intros [= <- <-]; constructor. }
  intros [= <- <-]. cbn [app]. apply Forall_bind, Forall_forall.
  intros data _. apply linkedin_job_keys.
Qed.

End LinkedInRecordFacts.

(** ** The merged list, source by source *)

Module MergeFacts.
Import Main Spec Shape.

Lemma tag_fmap (src : string) (found tagged_jobs : list (gmap string json)) :
  tag src found = Ok tagged_jobs →
  tagged_jobs = (λ job, <["source" := JStr src]> job) <$> found.
Proof.
  revert tagged_jobs. induction found as [|job found IH]; intros tagged_jobs; simpl.
  - by intros [= <-].
  - destruct (job !! "source"); [done|].
    destruct (tag src found) as [r|e]; [|done]. simpl.
    intros [= <-]. by rewrite (IH r).
Qed.

(** What an adapter entry point of main.py returns: nothing, or the jobs of
    its scraper, each with the name of the source. *)
Lemma get_jobs_cases (src : string) (scraper : M (list (gmap string json)))
    (found : list (gmap string json)) (tr : list event) :
  get_jobs src scraper = Some (Ok found, tr) →
  found = []
  ∨ ∃ scraped tr0, scraper = Some (Ok scraped, tr0)
                   ∧ found = (λ job, <["source" := JStr src]> job) <$> scraped.
Proof.
  unfold get_jobs, try_except, mbind, emit, after, lift, ret.
  destruct scraper as [[[scraped|e] tr0]|]; simpl; [| |done].
  - destruct (tag src scraped) as [tagged_jobs|e] eqn:Htag; simpl.
    + intros [= <- <-]. right. exists scraped, tr0. split; [done|].
      by apply tag_fmap.
    + destruct (is_Exception e); [|done]. intros [= <- <-]. by left.
  - destruct (is_Exception e); [|done]. simpl. intros [= <- <-]. by left.
Qed.

Section Parts.
Variable w : world.
Variable fuel : nat.
Variable request : JobRequest.

(** The merged list is made of three parts, in the order indeed, linkedin,
    rozee; a part is empty unless its source is requested. *)
Lemma collect_jobs_parts (all : list (gmap string json)) (tr : list event) :
  collect_jobs w fuel request = Some (Ok all, tr) →
  ∃ a b c,
    all = a ++ b ++ c
    ∧ (a = [] ∨ ("indeed" ∈ sources request
                 ∧ ∃ tr', get_indeed_jobs w fuel request = Some (Ok a, tr')))
    ∧ (b = [] ∨ ("linkedin" ∈ sources request
                 ∧ ∃ tr', get_linkedin_jobs w request = Some (Ok b, tr')))
    ∧ (c = [] ∨ ("rozee" ∈ sources request
                 ∧ ∃ tr', get_rozee_jobs w fuel request = Some (Ok c, tr'))).
Proof.
  unfold collect_jobs, wanted, mbind, after, ret, emit.
  intros Hrun.
  assert (∀ src : string,
    (∀ A (x y : A), (if bool_decide (src ∈ sources request) then x else y) = y)
    ∨ (src ∈ sources request
       ∧ ∀ A (x y : A), (if bool_decide (src ∈ sources request) then x else y) = x))
    as Hwanted.
  { intros src. destruct (decide (src ∈ sources request)) as [Hin|Hout].
    - right. split; [done|]. intros. by rewrite bool_decide_eq_true_2.
    - left. intros. by rewrite bool_decide_eq_false_2. }
  destruct (Hwanted "indeed") as [Hw|[? Hw]]; rewrite !Hw in Hrun; clear Hw;
    [|destruct (get_indeed_jobs w fuel request) as [[[a|?] ?]|] eqn:Ha;
      [|done..]];
    cbv beta iota in Hrun.
  all: destruct (Hwanted "linkedin") as [Hw|[? Hw]]; rewrite !Hw in Hrun; clear Hw;
    [|destruct (get_linkedin_jobs w request) as [[[b|?] ?]|] eqn:Hb;
      [|done..]];
    cbv beta iota in Hrun.
  all: destruct (Hwanted "rozee") as [Hw|[? Hw]]; rewrite !Hw in Hrun; clear Hw;
    [|destruct (get_rozee_jobs w fuel request) as [[[c|?] ?]|] eqn:Hc;
      [|done..]];
    cbv beta iota in Hrun.
  all: clear Hwanted.
  all: simpl in Hrun; injection Hrun as <- <-.
  - exists [], [], []. split_and!; auto.
  - exists [], [], c. split_and!; eauto.
  - exists [], b, []. rewrite app_nil_r. split_and!; eauto.
  - exists [], b, c. split_and!; eauto.
  - exists a, [], []. rewrite app_nil_r. split_and!; eauto.
  - exists a, [], c. split_and!; eauto.
  - exists a, b, []. rewrite app_nil_r. split_and!; eauto.
  - exists a, b, c. rewrite <-(assoc_L (++)). split_and!; eauto.
Qed.

End Parts.
End MergeFacts.

(** ** The analysis of one job, field by field *)

Module EntryFacts.
Import Analyzer Spec.

Section Facts.
Variable json_loads : string → option json.
Variable exn_text : exn → string.

Lemma entry_of_fields (requirements : JobRequest) (llm : nat → nat → reply)
    (k : nat) (job : gmap string json) :
  let entry := entry_of json_loads exn_text requirements llm k job in
  (∀ key, key ≠ "relevance_score" → key ≠ "matched_skills" → key ≠ "error" →
          entry !! key = job !! key)
  ∧ is_Some (entry !! "relevance_score")
  ∧ is_Some (entry !! "matched_skills")
  ∧ (entry !! "error" = job !! "error"
     ∨ (is_Some (entry !! "error")
        ∧ entry !! "relevance_score" = Some (JInt 0)
        ∧ entry !! "matched_skills" = Some (JArr []))).
Proof.
  cbv zeta. unfold entry_of.
  assert (∀ score skills,
    let entry := scored_entry job score skills in
    (∀ key, key ≠ "relevance_score" → key ≠ "matched_skills" → key ≠ "error" →
            entry !! key = job !! key)
    ∧ is_Some (entry !! "relevance_score")
    ∧ is_Some (entry !! "matched_skills")
    ∧ (entry !! "error" = job !! "error"
       ∨ (is_Some (entry !! "error")
          ∧ entry !! "relevance_score" = Some (JInt 0)
          ∧ entry !! "matched_skills" = Some (JArr [])))) as Hscored.
  { intros score skills. cbv zeta. unfold scored_entry. split_and!.
    - intros key ? ? ?. by rewrite !lookup_insert_ne.
    - rewrite lookup_insert_ne, lookup_insert_eq by done. eauto.
    - rewrite lookup_insert_eq. eauto.
    - left. by rewrite !lookup_insert_ne. }
  assert (∀ e,
    let entry := failed_entry exn_text job e in
    (∀ key, key ≠ "relevance_score" → key ≠ "matched_skills" → key ≠ "error" →
            entry !! key = job !! key)
    ∧ is_Some (entry !! "relevance_score")
    ∧ is_Some (entry !! "matched_skills")
    ∧ (entry !! "error" = job !! "error"
       ∨ (is_Some (entry !! "error")
          ∧ entry !! "relevance_score" = Some (JInt 0)
          ∧ entry !! "matched_skills" = Some (JArr [])))) as Hfailed.
  { intros e. cbv zeta. unfold failed_entry. split_and!.
    - intros key ? ? ?. by rewrite !lookup_insert_ne.
    - do 2 rewrite lookup_insert_ne by done. rewrite lookup_insert_eq. eauto.
    - rewrite lookup_insert_ne, lookup_insert_eq by done. eauto.
    - right. split_and!.
      + rewrite lookup_insert_eq. eauto.
      + do 2 rewrite lookup_insert_ne by done. by rewrite lookup_insert_eq.
      + by rewrite lookup_insert_ne, lookup_insert_eq. }
  destruct (analyze_job _ _ _ _) as [[score skills]|e]; [|apply Hfailed].
  destruct (py_len skills); [apply Hscored|apply Hfailed].
Qed.

End Facts.
End EntryFacts.

(** ** The sort, whatever the keys *)

Module SortOutcomeFacts.

Section Facts.
Context {A : Type} (key : A → json).

Lemma py_lt_raises (a b : json) (e : exn) : py_lt a b = Raise e → e = TypeError.
Proof.
  unfold py_lt. destruct (as_number a), (as_number b); try done;
    destruct a, b; try done; by intros [= <-].
Qed.

Lemma insert_sorted_outcome (x : A) (l : list A) :
  match insert_sorted key x l with
  | Ok r => r ≡ₚ x :: l
  | Raise e => e = TypeError
  end.
Proof.
  induction l as [|y l IH]; simpl; [done|].
  destruct (py_lt (key y) (key x)) as [[|]|e] eqn:Hlt; simpl.
  - destruct (insert_sorted key x l) as [r|e]; simpl; [|done].
    rewrite IH. apply Permutation_swap.
  - done.
  - by apply py_lt_raises in Hlt.
Qed.

Lemma sort_ascending_outcome (l : list A) :
  match sort_ascending key l with
  | Ok r => r ≡ₚ l
  | Raise e => e = TypeError
  end.
Proof.
  induction l as [|x l IH]; simpl; [done|].
  destruct (sort_ascending key l) as [r|e]; simpl; [|done].
  pose proof (insert_sorted_outcome x r) as Hins.
  destruct (insert_sorted key x r) as [r'|e]; [|done].
  by rewrite Hins, IH.
Qed.

Lemma list_sort_reverse_outcome (l : list A) :
  match list_sort_reverse key l with
  | Ok r => r ≡ₚ l
  | Raise e => e = TypeError
  end.
Proof.
  unfold list_sort_reverse.
  pose proof (sort_ascending_outcome (reverse l)) as Hsort.
  destruct (sort_ascending key (reverse l)) as [r|e]; simpl; [|done].
  by rewrite reverse_Permutation, Hsort, reverse_Permutation.
Qed.

End Facts.
End SortOutcomeFacts.

(** ** The batches of [analyze_jobs_batch] under the stop flag *)

Module InterruptFacts.
Import Analyzer Spec BatchFacts.

Section Facts.
Variable json_loads : string → option json.
Variable exn_text : exn → string.
Variable requirements : JobRequest.
Variable llm : nat → nat → reply.
Variable jobs : list (gmap string json).
Variable running : nat → bool.

Lemma batch_loop_app (starts rest : list nat) (analyzed : list (gmap string json)) :
  Forall (λ i, running i = true) starts →
  batch_loop json_loads exn_text jobs requirements llm running (starts ++ rest) analyzed
  = batch_loop json_loads exn_text jobs requirements llm running rest
      (analyzed ++ concat ((λ i, take batch_size
                                   (drop i (entries json_loads exn_text requirements llm jobs)))
                             <$> starts)).
Proof.
  intros Hrun. revert analyzed.
  induction Hrun as [|i starts Hi _ IH]; intros analyzed.
  - simpl. by rewrite app_nil_r.
  - cbn [app batch_loop]. rewrite Hi. cbn [negb].
    rewrite IH, batch_results, omap_Ok. cbn [fmap list_fmap concat].
    by rewrite <-(assoc_L (++)).
Qed.

Lemma chunks_take {B : Type} (b : nat) (l : list B) :
  concat ((λ i, take batch_size (drop i l)) <$> ((λ k, k * batch_size) <$> seq 0 b))
  = take (b * batch_size) l.
Proof.
  induction b as [|b IH]; [done|].
  rewrite seq_S, !fmap_app, concat_app, IH.
  cbn [plus fmap list_fmap concat]. rewrite app_nil_r, take_take_drop.
  f_equal. unfold batch_size. lia.
Qed.

Lemma entries_take (n : nat) :
  take n (entries json_loads exn_text requirements llm jobs)
  = entries json_loads exn_text requirements llm (take n jobs).
Proof.
  unfold entries. apply list_eq. intros i.
  rewrite lookup_take, !list_lookup_imap, lookup_take.
  by case_decide.
Qed.

(** The loop stops at the first batch whose head finds the flag cleared:
    the entries of the batches before it are what it leaves. *)
Lemma batch_loop_interrupted (b : nat) :
  (∀ k, k < b → running (k * batch_size) = true) →
  running (b * batch_size) = false →
  b * batch_size < length jobs →
  batch_loop json_loads exn_text jobs requirements llm running
    (batch_starts (length jobs)) []
  = entries json_loads exn_text requirements llm (take (b * batch_size) jobs).
Proof.
  intros Hbefore Hstop Hlen. unfold batch_starts.
  set (m := (length jobs + batch_size - 1) / batch_size).
  assert (b < m) as Hb.
  { destruct (batch_starts_cover (length jobs)) as [_ Hcover]. fold m in Hcover.
    unfold batch_size in *. lia. }
  replace m with (b + S (m - S b)) by lia.
  rewrite seq_app, fmap_app. cbn [seq fmap list_fmap plus].
  rewrite batch_loop_app.
  2:{ apply Forall_fmap, Forall_forall. intros k Hk%elem_of_seq. simpl.
      apply Hbefore. lia. }
  cbn [batch_loop]. rewrite Hstop. cbn [negb app].
  by rewrite chunks_take, entries_take.
Qed.

End Facts.
End InterruptFacts.

(** ** The conversion to the answer *)

Module ResponseFacts.
Import Response Terms.

Section Facts.
Variable JobResponse : gmap string json → option (gmap string json).

Lemma subscript_raises (job : gmap string json) (key : string) (e : exn) :
  subscript job key = Raise e → is_Exception e = true.
Proof. unfold subscript. destruct (job !! key); [done|]. by intros [= <-]. Qed.

Lemma job_experience_raises (job : gmap string json) (e : exn) :
  job_experience job = Raise e → e = AttributeError.
Proof.
  unfold job_experience. destruct (negb _); [done|].
  destruct (dict_get job "experience" _); simpl; try (by intros [= <-]).
  by destruct (String.eqb _ _).
Qed.

(** What leaves the body of the [try] is always caught by its handler. *)
Lemma job_response_raises (job : gmap string json) (e : exn) :
  job_response JobResponse job = Raise e → is_Exception e = true.
Proof.
  unfold job_response.
  destruct (job_experience job) as [x|e'] eqn:Hx; simpl.
  2:{ intros [= <-]. by rewrite (job_experience_raises _ _ Hx). }
  repeat match goal with
  | |- bind (subscript job ?k) _ = _ → _ =>
      let H := fresh "H" in
      destruct (subscript job k) eqn:H; simpl;
      [|intros [= <-]; by eapply subscript_raises]
  end.
  destruct (JobResponse _); [done|]. by intros [= <-].
Qed.

Lemma convert_loop_omap (analyzed relevant : list (gmap string json)) :
  convert_loop JobResponse analyzed relevant
  = Ok (relevant ++ omap (accepted JobResponse) analyzed).
Proof.
  revert relevant. induction analyzed as [|job rest IH]; intros relevant.
  - simpl. by rewrite app_nil_r.
  - cbn [convert_loop].
    change (omap (accepted JobResponse) (job :: rest))
      with (match accepted JobResponse job with
            | Some model => model :: omap (accepted JobResponse) rest
            | None => omap (accepted JobResponse) rest
            end).
    unfold accepted at 1.
    destruct (job_response JobResponse job) as [model|e] eqn:Hjob.
    + rewrite IH. by rewrite <-(assoc_L (++)).
    + by rewrite (job_response_raises _ _ Hjob), IH.
Qed.

Lemma job_response_missing_key (job : gmap string json) (key : string) :
  key ∈ ["title"; "company"; "location"; "apply_link"; "source"] →
  job !! key = None → accepted JobResponse job = None.
Proof.
  intros Hkey Hnone. unfold accepted, job_response.
  destruct (job_experience job); [|done]. simpl.
  unfold subscript.
  repeat match goal with
  | |- context [job !! ?k] =>
      lazymatch goal with
      | H : job !! k = _ |- _ => fail
      | _ => let H := fresh "H" in destruct (job !! k) eqn:H; simpl; [|done]
      end
  end.
  exfalso. revert Hkey. rewrite !elem_of_cons, elem_of_nil.
  intros [->|[->|[->|[->|[->|[]]]]]]; congruence.
Qed.

Lemma job_response_experience (job : gmap string json) (v : json) :
  job !! "experience" = Some v →
  py_truthy v = true →
  (∀ s, v ≠ JStr s) →
  job_response JobResponse job = Raise AttributeError.
Proof.
  intros Hv Htrue Hnot. unfold job_response, job_experience, dict_get.
  rewrite Hv. simpl. rewrite Htrue. simpl.
  destruct v; try done. by destruct (Hnot s).
Qed.

End Facts.
End ResponseFacts.

(** ** The address of the endpoint *)

Module SetupFacts.
Import Setup Terms StringFacts.

Lemma rstrip_split (c : ascii) (s : string) :
  ∃ n, s = rstrip c s +:+ repeated c n
       ∧ ∀ t, rstrip c s ≠ t +:+ String c "".
Proof.
  induction s as [|a s (n & Hs & Hend)].
  - exists 0. split; [done|]. intros [|??]; done.
  - cbn [rstrip]. destruct (rstrip c s) as [|b t] eqn:Hstrip.
    + destruct (Ascii.eqb a c) eqn:Hac.
      * apply Ascii.eqb_eq in Hac as ->. exists (S n). split.
        -- rewrite string_app_nil_l in Hs |- *. rewrite Hs at 1.
           destruct n; [done|]. reflexivity.
        -- intros [|??]; done.
      * exists n. split.
        -- rewrite string_app_cons. rewrite string_app_nil_l in Hs |- *.
           by rewrite Hs at 1.
        -- intros [|x [|??]]; try done. rewrite string_app_nil_l.
           intros [= ->]. by rewrite Ascii.eqb_refl in Hac.
    + exists n. split.
      * rewrite string_app_cons. by rewrite Hs at 1.
      * intros [|x u]; [done|]. rewrite string_app_cons. intros [= -> Hu].
        by apply (Hend u).
Qed.

End SetupFacts.

(** ** The bound of the indeed adapter, whatever the fuel *)

Module IndeedBoundFacts.
Import Indeed Spec.

Section Facts.
Variable web : site.
Variable max_jobs : nat.

Lemma indeed_page_loop_inv (fuel : nat) (url : string) (st : state)
    (raised : option exn) (st' : state) :
  page_loop web max_jobs fuel url st = Some (raised, st') →
  inv max_jobs st → inv max_jobs st'.
Proof.
  revert st. induction fuel as [|fuel IH]; intros st; [done|]. cbn [page_loop].
  destruct (_ && _); [|by intros [= <- <-]].
  set (st1 := {| jobs := jobs st; processed_count := processed_count st;
                 page_num := page_num st;
                 first_page_retried := first_page_retried st;
                 navigations := S (navigations st);
                 trace := trace st ++ _ |}).
  assert (inv max_jobs st → inv max_jobs st1) as Hinv1.
  { intros [Hc Ht Hg Ho Hm]. split; simpl; try done.
    - rewrite IndeedFacts.gets_app, length_app. simpl. lia.
    - intros [?|Hin%list_elem_of_singleton]%elem_of_app; done. }
  destruct (results web _ _) as [page|e].
  2:{ destruct (is_Exception e); intros [= <- <-]; exact Hinv1. }
  destruct (_ && _ && _).
  { intros Hloop Hst. apply (IH _ Hloop). destruct (Hinv1 Hst). by split. }
  destruct (card_loop web max_jobs (job_cards page) st1) as [[e|] st2] eqn:Hcards.
  - intros [= <- <-] Hst.
    destruct (IndeedFacts.card_loop_inv web max_jobs (job_cards page) st1 (Hinv1 Hst))
      as [Hinv2 _].
    by rewrite Hcards in Hinv2.
  - destruct (max_jobs <=? processed_count st2).
    + intros [= <- <-] Hst.
      destruct (IndeedFacts.card_loop_inv web max_jobs (job_cards page) st1 (Hinv1 Hst))
        as [Hinv2 _].
      by rewrite Hcards in Hinv2.
    + intros Hloop Hst. apply (IH _ Hloop).
      destruct (IndeedFacts.card_loop_inv web max_jobs (job_cards page) st1 (Hinv1 Hst))
        as [Hinv2 _].
      rewrite Hcards in Hinv2. destruct Hinv2. by split.
Qed.

Lemma indeed_scrape_jobs_bounded (fuel : nat) (position location : string)
    (found : list (gmap string json)) (tr : list event) :
  scrape_jobs web max_jobs fuel position location = Some (Ok found, tr) →
  length found ≤ max_jobs.
Proof.
  unfold scrape_jobs. destruct (start web) as [e|].
  { destruct (is_Exception e); intros [= <- <-]; simpl; lia. }
  destruct (page_loop web max_jobs fuel _ _) as [[[e|] st]|] eqn:Hloop; [| |done].
  - destruct (is_Exception e); intros [= <- <-]; simpl; lia.
  - intros [= <- <-].
    by destruct (indeed_page_loop_inv _ _ _ _ _ Hloop (IndeedFacts.initial_inv max_jobs)).
Qed.

End Facts.
End IndeedBoundFacts.

(** * Further properties of the code *)

(** ** Records and pages of the adapters *)

Module AdapterRecords.
Import Spec Shape Paging Samples Cases.

(** X4.  Every job [scrape_indeed_sync] returns has the eight fields, all of
    them strings: title, company, location and link are not empty, the link
    never starts with a slash (a relative [href] is prefixed with the base
    address, a missing one replaced by a fixed text), the job nature is
    "onsite", and the experience is [extract_experience] of the description. *)
Theorem indeed_jobs_are_records (web : Indeed.site) (fuel : nat)
    (position location experience : string)
    (found : list (gmap string json)) (tr : list event) :
  Indeed.scrape_indeed_sync web fuel position location experience
    = Some (Ok found, tr) →
  Forall indeed_record found.
Proof. apply IndeedRecordFacts.indeed_scrape_jobs_records. Qed.

Lemma indeed_jobs_are_records_witness : Forall indeed_record [indeed_dev].
Proof.
  apply (indeed_jobs_are_records indeed_site 6 "python dev" "Lahore" "2 years" _
           [EvBrowserStart;
            EvGet "https://pk.indeed.com/jobs?q=python+dev&l=Lahore&sort=date&start=0";
            EvDetail "https://pk.indeed.com/job/0";
            EvDetail "https://pk.indeed.com/job/1";
            EvGet "https://pk.indeed.com/jobs?q=python+dev&l=Lahore&sort=date&start=10";
            EvGet "https://pk.indeed.com/jobs?q=python+dev&l=Lahore&sort=date&start=20"]).
  reflexivity.
Defined.

(** X5.  The pages of results the indeed adapter requests are, in order, a
    beginning of the page indices 0, 1, 2 or, when the second page showed
    cards and the first page is fetched again, of 0, 1, 0, 1, 2; page index
    [k] is requested as the search address with [&start=] and [10 * k]. *)
Theorem indeed_page_schedule (web : Indeed.site) (max_jobs fuel : nat)
    (position location : string)
    (r : res (list (gmap string json))) (tr : list event) :
  Indeed.scrape_jobs web max_jobs fuel position location = Some (r, tr) →
  ∃ pages,
    gets tr = indeed_page_url (Indeed.search_url position location) <$> pages
    ∧ (pages `prefix_of` [0; 1; 2] ∨ pages `prefix_of` [0; 1; 0; 1; 2]).
Proof.
  unfold Indeed.scrape_jobs. destruct (Indeed.start web) as [e|].
  { destruct (is_Exception e); intros [= <- <-]; exists [];
      (split; [done|left; apply prefix_nil]). }
  destruct (Indeed.page_loop web max_jobs fuel _ _) as [[raised st]|] eqn:Hloop;
    [|done].
  apply IndeedPagingFacts.indeed_page_loop_schedule in Hloop
    as (pages & Hgets & Hfuture).
  simpl in Hgets, Hfuture.
  assert (pages `prefix_of` [0; 1; 2] ∨ pages `prefix_of` [0; 1; 0; 1; 2]) as Hpages.
  { destruct Hfuture as [?|(_ & _ & ?)]; [by left|by right]. }
  intros Hrun. exists pages. split; [|done].
  destruct raised as [e|]; [destruct (is_Exception e)|];
    injection Hrun as <- <-; exact Hgets.
Qed.

Lemma indeed_page_schedule_witness :
  ∃ pages,
    gets [EvBrowserStart;
          EvGet "https://pk.indeed.com/jobs?q=dev&l=Lahore&sort=date&start=0";
          EvDetail "https://pk.indeed.com/job/0";
          EvGet "https://pk.indeed.com/jobs?q=dev&l=Lahore&sort=date&start=10";
          EvGet "https://pk.indeed.com/jobs?q=dev&l=Lahore&sort=date&start=0";
          EvDetail "https://pk.indeed.com/job/0";
          EvGet "https://pk.indeed.com/jobs?q=dev&l=Lahore&sort=date&start=10";
          EvDetail "https://pk.indeed.com/job/0";
          EvGet "https://pk.indeed.com/jobs?q=dev&l=Lahore&sort=date&start=20";
          EvDetail "https://pk.indeed.com/job/0"]
    = indeed_page_url (Indeed.search_url "dev" "Lahore") <$> pages
    ∧ (pages `prefix_of` [0; 1; 2] ∨ pages `prefix_of` [0; 1; 0; 1; 2]).
Proof.
  apply (indeed_page_schedule indeed_full 10 6 "dev" "Lahore" (Ok [])).
  reflexivity.
Defined.

(** X6.  Every job [scrape_rozee_sync] returns has the eight fields: title,
    company, location, experience, description and salary are strings, the
    link is the [href] attribute of the title or null when the tag has none,
    and the job nature is "onsite". *)
Theorem rozee_jobs_are_records (web : Rozee.site)
    (cities_file : option (gmap string string)) (fuel : nat)
    (position location experience : string)
    (found : list (gmap string json)) (tr : list event) :
  Rozee.scrape_rozee_sync web cities_file fuel position location experience
    = Some (Ok found, tr) →
  Forall rozee_record found.
Proof. apply RozeeRecordFacts.rozee_scrape_jobs_records. Qed.

Lemma rozee_jobs_are_records_witness : Forall rozee_record [rozee_dev; rozee_ops].
Proof.
  apply (rozee_jobs_are_records rozee_repeating None 3 "python dev" "lahore"
           "2 years" _
           [EvBrowserStart;
            EvGet "https://www.rozee.pk/job/jsearch/q/python%20dev/fc/1184/p/1";
            EvGet "https://www.rozee.pk/job/jsearch/q/python%20dev/fc/1184/p/2";
            EvBrowserQuit]).
  reflexivity.
Defined.

(** X7.  The rozee adapter requests the pages 1, 2, 3, ... of the search
    address in order, each once, with no gap; the run decides only how many. *)
Theorem rozee_pages_in_order (web : Rozee.site) (max_jobs fuel : nat)
    (position city_code : string)
    (r : res (list (gmap string json))) (tr : list event) :
  Rozee.scrape_jobs web max_jobs fuel position city_code = Some (r, tr) →
  ∃ n, gets tr
       = rozee_page_url (Rozee.search_url position city_code) <$> seq 1 n.
Proof.
  unfold Rozee.scrape_jobs. destruct (Rozee.chrome web).
  { intros [= <- <-]. by exists 0. }
  destruct (Rozee.page_loop web max_jobs fuel _ _) as [[raised st]|] eqn:Hloop;
    [|done].
  apply RozeeRecordFacts.rozee_page_loop_pages in Hloop as [_ [n Hgets]].
  simpl in Hgets.
  assert (gets (Rozee.trace st ++ [EvBrowserQuit])
          = rozee_page_url (Rozee.search_url position city_code) <$> seq 1 n)
    as Hall.
  { by rewrite IndeedFacts.gets_app, Hgets, app_nil_r. }
  intros Hrun. exists n.
  destruct (Rozee.quit web); [by injection Hrun as <- <-|].
  destruct raised as [e|]; [destruct (is_KeyboardInterrupt e)|];
    injection Hrun as <- <-; exact Hall.
Qed.

Lemma rozee_pages_in_order_witness :
  ∃ n, gets [EvBrowserStart;
             EvGet "https://www.rozee.pk/job/jsearch/q/python%20dev/fc/1184/p/1";
             EvGet "https://www.rozee.pk/job/jsearch/q/python%20dev/fc/1184/p/2";
             EvBrowserQuit]
       = rozee_page_url (Rozee.search_url "python dev" "1184") <$> seq 1 n.
Proof.
  apply (rozee_pages_in_order rozee_repeating 10 3 "python dev" "1184"
           (Ok [rozee_dev; rozee_ops])).
  reflexivity.
Defined.

(** X8.  The city code [scrape_rozee_sync] searches with: the code the file
    gives for the location as typed; failing that (no entry, or an empty
    code) the code for the location in lower case; failing that whatever the
    file gives for the location in title case, an empty code included; and
    "1184" when that last entry is missing too, in particular when the file
    could not be loaded. *)
Theorem scrape_rozee_sync_city_code (web : Rozee.site)
    (cities_file : option (gmap string string)) (fuel : nat)
    (position location experience : string) :
  (∀ code,
     default ∅ cities_file !! location = Some code → code ≠ "" →
     Rozee.scrape_rozee_sync web cities_file fuel position location experience
     = Rozee.scrape_jobs web 10 fuel position code)
  ∧ (∀ code,
       nonempty (default ∅ cities_file !! location) = false →
       default ∅ cities_file !! py_lower location = Some code → code ≠ "" →
       Rozee.scrape_rozee_sync web cities_file fuel position location experience
       = Rozee.scrape_jobs web 10 fuel position code)
  ∧ (∀ code,
       nonempty (default ∅ cities_file !! location) = false →
       nonempty (default ∅ cities_file !! py_lower location) = false →
       default ∅ cities_file !! py_title location = Some code →
       Rozee.scrape_rozee_sync web cities_file fuel position location experience
       = Rozee.scrape_jobs web 10 fuel position code)
  ∧ (nonempty (default ∅ cities_file !! location) = false →
     nonempty (default ∅ cities_file !! py_lower location) = false →
     default ∅ cities_file !! py_title location = None →
     Rozee.scrape_rozee_sync web cities_file fuel position location experience
     = Rozee.scrape_jobs web 10 fuel position "1184")
  ∧ (cities_file = None →
     Rozee.scrape_rozee_sync web cities_file fuel position location experience
     = Rozee.scrape_jobs web 10 fuel position "1184").
Proof.
  unfold Rozee.scrape_rozee_sync, Rozee.or_code. split_and!.
  - intros code -> Hcode. simpl. apply String.eqb_neq in Hcode.
    rewrite Hcode. simpl. by rewrite Hcode.
  - intros code -> -> Hcode. simpl. apply String.eqb_neq in Hcode.
    by rewrite Hcode.
  - intros code -> -> ->. reflexivity.
  - intros -> -> ->. reflexivity.
  - intros ->. reflexivity.
Qed.

(** X9.  When the library run ends without an error, [scrape_linkedin_sync]
    returns the jobs of the first ten records it was handed, in their order,
    each built as the callback builds one record; a record without insights
    gets the requested experience as its experience.  When the run raises,
    the jobs already built are discarded and the empty list is returned. *)
Theorem scrape_linkedin_sync_first_ten (library : string → string → LinkedIn.run)
    (position location experience : string) :
  (LinkedIn.failure (library position location) = None →
   LinkedIn.scrape_linkedin_sync library position location experience
   = Some (Ok (take 10 (LinkedIn.emitted (library position location))
               ≫= linkedin_job experience), []))
  ∧ (∀ e, LinkedIn.failure (library position location) = Some e →
          is_Exception e = true →
          LinkedIn.scrape_linkedin_sync library position location experience
          = Some (Ok [], []))
  ∧ (∀ data, LinkedIn.insights data = [] →
       Forall (λ job : gmap string json, job !! "experience" = Some (JStr experience))
         (linkedin_job experience data)).
Proof.
  unfold LinkedIn.scrape_linkedin_sync.
  rewrite LinkedInRecordFacts.on_data_fold. split_and!.
  - by intros ->.
  - by intros e -> ->.
  - intros data Hnone. unfold linkedin_job, LinkedIn.on_data.
    cbn [Nat.ltb Nat.leb LinkedIn.max_jobs fst app]. rewrite Hnone.
    by repeat constructor.
Qed.

End AdapterRecords.

(** ** The merged list *)

Module MergeProperties.
Import Main Spec Shape Samples Cases MergeFacts.

Lemma tagged_fmap (src : string) (scraped : list (gmap string json)) :
  Forall (λ job : gmap string json, dom job = job_keys) scraped →
  Forall (tagged src) ((λ job, <["source" := JStr src]> job) <$> scraped).
Proof.
  intros Hkeys. apply Forall_fmap. eapply Forall_impl; [exact Hkeys|].
  intros job Hdom. split.
  - apply lookup_insert_eq.
  - by rewrite dom_insert_L, Hdom.
Qed.

Lemma get_indeed_jobs_tagged (w : Main.world) (fuel : nat) (request : JobRequest)
    (found : list (gmap string json)) (tr : list event) :
  get_indeed_jobs w fuel request = Some (Ok found, tr) →
  Forall (tagged "indeed") found ∧ length found ≤ 10.
Proof.
  intros [->|(scraped & tr0 & Hrun & ->)]%get_jobs_cases;
    [split; [constructor|simpl; lia]|].
  split.
  - apply tagged_fmap.
    apply IndeedRecordFacts.indeed_scrape_jobs_records in Hrun.
    eapply Forall_impl; [exact Hrun|].
    intros job (? & ? & ? & ? & ? & ? & Hjob).
    do 13 destruct Hjob as [_ Hjob]. exact Hjob.
  - rewrite length_fmap.
    by apply IndeedBoundFacts.indeed_scrape_jobs_bounded in Hrun.
Qed.

Lemma get_linkedin_jobs_tagged (w : Main.world) (request : JobRequest)
    (found : list (gmap string json)) (tr : list event) :
  get_linkedin_jobs w request = Some (Ok found, tr) →
  Forall (tagged "linkedin") found ∧ length found ≤ 10.
Proof.
  intros [->|(scraped & tr0 & Hrun & ->)]%get_jobs_cases;
    [split; [constructor|simpl; lia]|].
  split.
  - apply tagged_fmap.
    apply LinkedInRecordFacts.scrape_linkedin_sync_keys in Hrun.
    eapply Forall_impl; [exact Hrun|]. by intros job [? _].
  - rewrite length_fmap.
    by apply LinkedInFacts.scrape_linkedin_sync_bounded in Hrun.
Qed.

Lemma get_rozee_jobs_tagged (w : Main.world) (fuel : nat) (request : JobRequest)
    (found : list (gmap string json)) (tr : list event) :
  get_rozee_jobs w fuel request = Some (Ok found, tr) →
  Forall (tagged "rozee") found ∧ length found ≤ 10.
Proof.
  intros [->|(scraped & tr0 & Hrun & ->)]%get_jobs_cases;
    [split; [constructor|simpl; lia]|].
  split.
  - apply tagged_fmap.
    apply RozeeRecordFacts.rozee_scrape_jobs_records in Hrun.
    eapply Forall_impl; [exact Hrun|].
    intros job (? & ? & ? & ? & ? & ? & ? & Hjob).
    do 8 destruct Hjob as [_ Hjob]. exact Hjob.
  - rewrite length_fmap.
    by apply RozeeFacts.scrape_jobs_bounded in Hrun.
Qed.

Lemma collect_jobs_length (w : Main.world) (fuel : nat) (request : JobRequest)
    (all : list (gmap string json)) (tr : list event) :
  collect_jobs w fuel request = Some (Ok all, tr) → length all ≤ 30.
Proof.
  intros (a & b & c & -> & Ha & Hb & Hc)%collect_jobs_parts.
  rewrite !length_app.
  assert (length a ≤ 10).
  { destruct Ha as [->|(_ & tr' & Hrun)]; [simpl; lia|].
    by apply get_indeed_jobs_tagged in Hrun as [_ ?]. }
  assert (length b ≤ 10).
  { destruct Hb as [->|(_ & tr' & Hrun)]; [simpl; lia|].
    by apply get_linkedin_jobs_tagged in Hrun as [_ ?]. }
  assert (length c ≤ 10).
  { destruct Hc as [->|(_ & tr' & Hrun)]; [simpl; lia|].
    by apply get_rozee_jobs_tagged in Hrun as [_ ?]. }
  lia.
Qed.

(** X10.  Every job of the list handed to the analyzer carries, as its
    [source], the name of one of the three adapters, and that name is among
    the sources of the request; besides [source] it has exactly the eight
    fields of the adapters. *)
Theorem collect_jobs_tagged (w : Main.world) (fuel : nat) (request : JobRequest)
    (all : list (gmap string json)) (tr : list event) :
  collect_jobs w fuel request = Some (Ok all, tr) →
  Forall (λ job, ∃ src, src ∈ ["indeed"; "linkedin"; "rozee"]
                        ∧ src ∈ sources request ∧ tagged src job) all.
Proof.
  intros (a & b & c & -> & Ha & Hb & Hc)%collect_jobs_parts.
  rewrite !Forall_app. split_and!.
  - destruct Ha as [->|(? & tr' & Hrun)]; [constructor|].
    apply get_indeed_jobs_tagged in Hrun as [Hrun _].
    eapply Forall_impl; [exact Hrun|]. intros job ?. exists "indeed".
    split_and!; [rewrite !elem_of_cons; auto|done|done].
  - destruct Hb as [->|(? & tr' & Hrun)]; [constructor|].
    apply get_linkedin_jobs_tagged in Hrun as [Hrun _].
    eapply Forall_impl; [exact Hrun|]. intros job ?. exists "linkedin".
    split_and!; [rewrite !elem_of_cons; auto|done|done].
  - destruct Hc as [->|(? & tr' & Hrun)]; [constructor|].
    apply get_rozee_jobs_tagged in Hrun as [Hrun _].
    eapply Forall_impl; [exact Hrun|]. intros job ?. exists "rozee".
    split_and!; [rewrite !elem_of_cons; auto|done|done].
Qed.

Lemma collect_jobs_tagged_witness :
  Forall (λ job, ∃ src, src ∈ ["indeed"; "linkedin"; "rozee"]
                        ∧ src ∈ sources (request ["linkedin"]) ∧ tagged src job)
    [linkedin_tagged].
Proof.
  apply (collect_jobs_tagged (world reply_150) 6 (request ["linkedin"]) _
           [EvAdapter "linkedin"]).
  reflexivity.
Defined.

(** X11.  The merged list depends on the sources of the request only as a
    set: their order, repetitions and names that are no adapter change
    neither the jobs nor the order in which the adapters run. *)
Theorem collect_jobs_sources_as_set (w : Main.world) (fuel : nat) (r1 r2 : JobRequest) :
  (∀ src, src ∈ ["indeed"; "linkedin"; "rozee"] →
          src ∈ sources r1 ↔ src ∈ sources r2) →
  position r1 = position r2 →
  location r1 = location r2 →
  experience r1 = experience r2 →
  collect_jobs w fuel r1 = collect_jobs w fuel r2.
Proof.
  intros Hsources Hposition Hlocation Hexperience.
  unfold collect_jobs, wanted, get_indeed_jobs, get_linkedin_jobs, get_rozee_jobs.
  rewrite Hposition, Hlocation, Hexperience.
  assert (∀ src, src ∈ ["indeed"; "linkedin"; "rozee"] →
            bool_decide (src ∈ sources r1) = bool_decide (src ∈ sources r2)) as Hdec.
  { intros src Hsrc. apply bool_decide_ext. by apply Hsources. }
  by rewrite (Hdec "indeed"), (Hdec "linkedin"), (Hdec "rozee")
    by (rewrite !elem_of_cons; auto).
Qed.

Lemma collect_jobs_sources_as_set_witness :
  collect_jobs (world reply_150) 3 (request shuffled_sources)
  = collect_jobs (world reply_150) 3 (request plain_sources).
Proof.
  apply collect_jobs_sources_as_set; try reflexivity.
  intros src. unfold request, shuffled_sources, plain_sources. simpl.
  rewrite !elem_of_cons, !elem_of_nil.
  intros [->|[->|[->|[]]]]; intuition discriminate.
Defined.

End MergeProperties.

(** ** The analysis of a batch *)

Module BatchProperties.
Import Analyzer Spec Samples Cases.


(** X13.  When the stop flag is found cleared at the head of the batch with
    index [b], having been set at the head of every batch before it, the
    call returns what an uninterrupted call on the first [5 * b] jobs
    returns: the later jobs are never analysed. *)
Theorem analyze_jobs_batch_interrupted
    (json_loads : string → option json) (exn_text : exn → string)
    (jobs : list (gmap string json)) (requirements : JobRequest)
    (llm : nat → nat → reply) (running : nat → bool) (b : nat) :
  (∀ k, k < b → running (k * batch_size) = true) →
  running (b * batch_size) = false →
  b * batch_size < length jobs →
  analyze_jobs_batch json_loads exn_text jobs requirements llm running
  = analyze_jobs_batch json_loads exn_text (take (b * batch_size) jobs)
      requirements llm (λ _, true).
Proof.
  intros Hbefore Hstop Hlen. unfold analyze_jobs_batch.
  rewrite (InterruptFacts.batch_loop_interrupted _ _ _ _ _ _ b) by done.
  by rewrite (BatchFacts.batch_loop_entries _ _ _ _ _ (λ _, true)).
Qed.

Lemma analyze_jobs_batch_interrupted_witness :
  analyze_jobs_batch loads_sample (λ _, "error") seven_jobs sample_request
    llm_sample stopped_after_first
  = analyze_jobs_batch loads_sample (λ _, "error") (take (1 * batch_size) seven_jobs)
      sample_request llm_sample (λ _, true).
Proof.
  apply analyze_jobs_batch_interrupted.
  - intros k Hk. assert (k = 0) as -> by lia. reflexivity.
  - reflexivity.
  - simpl. lia.
Defined.

Lemma first_stop (running : nat → bool) (m : nat) :
  (∀ k, k < m → running (k * batch_size) = true)
  ∨ ∃ b, b < m ∧ running (b * batch_size) = false
         ∧ ∀ k, k < b → running (k * batch_size) = true.
Proof.
  induction m as [|m [IH|(b & Hb & Hstop & Hbefore)]].
  - left. intros k Hk. lia.
  - destruct (running (m * batch_size)) eqn:Hm.
    + left. intros k Hk. destruct (decide (k = m)) as [->|]; [done|].
      apply IH. lia.
    + right. exists m. split_and!; [lia|done|done].
  - right. exists b. split_and!; [lia|done|done].
Qed.

(** Whatever the stop flag does, the loop leaves the entries of the first
    jobs, up to some position. *)
Lemma batch_loop_prefix
    (json_loads : string → option json) (exn_text : exn → string)
    (jobs : list (gmap string json)) (requirements : JobRequest)
    (llm : nat → nat → reply) (running : nat → bool) :
  ∃ n, n ≤ length jobs
       ∧ batch_loop json_loads exn_text jobs requirements llm running
           (batch_starts (length jobs)) []
         = entries json_loads exn_text requirements llm (take n jobs).
Proof.
  destruct (BatchFacts.batch_starts_cover (length jobs)) as [Hstarts Hcover].
  set (m := (length jobs + batch_size - 1) / batch_size) in *.
  destruct (first_stop running m) as [Hall|(b & Hb & Hstop & Hbefore)].
  - exists (length jobs). split; [done|]. rewrite Hstarts.
    rewrite <-(app_nil_r (_ <$> seq 0 m)).
    rewrite InterruptFacts.batch_loop_app.
    2:{ apply Forall_fmap, Forall_forall. intros k Hk%elem_of_seq. simpl.
        apply Hall. lia. }
    cbn [batch_loop app].
    rewrite InterruptFacts.chunks_take, InterruptFacts.entries_take.
    by rewrite !take_ge by lia.
  - exists (b * batch_size).
    assert (b * batch_size < length jobs) as Hlen.
    { subst m. unfold batch_size in *.
      pose proof (Nat.div_mod_eq (length jobs + 5 - 1) 5).
      pose proof (Nat.mod_upper_bound (length jobs + 5 - 1) 5). lia. }
    split; [lia|]. by apply InterruptFacts.batch_loop_interrupted.
Qed.


Lemma analyze_jobs_batch_length
    (json_loads : string → option json) (exn_text : exn → string)
    (jobs : list (gmap string json)) (requirements : JobRequest)
    (llm : nat → nat → reply) (running : nat → bool)
    (out : list (gmap string json)) :
  analyze_jobs_batch json_loads exn_text jobs requirements llm running = Ok out →
  length out ≤ length jobs.
Proof.
  unfold analyze_jobs_batch.
  destruct (batch_loop_prefix json_loads exn_text jobs requirements llm running)
    as (n & Hn & ->).
  pose proof (SortOutcomeFacts.list_sort_reverse_outcome sort_key
                (entries json_loads exn_text requirements llm (take n jobs)))
    as Hsort.
  destruct (list_sort_reverse sort_key _) as [out'|e]; [|done].
  intros [= <-]. rewrite Hsort. unfold entries.
  rewrite length_imap, length_take. lia.
Qed.

End BatchProperties.

(** ** The answer of [search_jobs] *)

Module AnswerProperties.
Import Main Spec Shape Terms Response Samples Cases.

(** X15.  The conversion to the answer never fails as a whole: it returns,
    in the order of the analysis, the model of every job that has one; a job
    whose conversion raises is logged and left out. *)
Theorem convert_loop_never_fails
    (JobResponse : gmap string json → option (gmap string json))
    (analyzed : list (gmap string json)) :
  convert_loop JobResponse analyzed [] = Ok (omap (accepted JobResponse) analyzed).
Proof. apply ResponseFacts.convert_loop_omap. Qed.

(** X16.  A job that lacks one of [title], [company], [location],
    [apply_link] and [source] is left out of the answer, and the answer is
    otherwise what it is without that job. *)
Theorem convert_loop_drops_incomplete
    (JobResponse : gmap string json → option (gmap string json))
    (before after : list (gmap string json)) (job : gmap string json)
    (key : string) :
  key ∈ ["title"; "company"; "location"; "apply_link"; "source"] →
  job !! key = None →
  convert_loop JobResponse (before ++ job :: after) []
  = convert_loop JobResponse (before ++ after) [].
Proof.
  intros Hkey Hnone. rewrite !ResponseFacts.convert_loop_omap, !omap_app.
  change (omap (accepted JobResponse) (job :: after))
    with (match accepted JobResponse job with
          | Some model => model :: omap (accepted JobResponse) after
          | None => omap (accepted JobResponse) after
          end).
  by rewrite (ResponseFacts.job_response_missing_key _ _ _ Hkey Hnone).
Qed.

Lemma convert_loop_drops_incomplete_witness :
  convert_loop accept_all ([linkedin_tagged] ++ delete "title" indeed_dev :: []) []
  = convert_loop accept_all ([linkedin_tagged] ++ []) [].
Proof.
  apply (convert_loop_drops_incomplete accept_all _ _ _ "title").
  - rewrite !elem_of_cons. auto.
  - reflexivity.
Defined.

(** X17.  A linkedin record that carries insights never reaches the answer:
    the job built from it has the list of insights as its experience, the
    analysis keeps that field, and the conversion, which calls [lower] on
    it, raises and leaves the job out, whatever the model replied. *)
Theorem linkedin_insights_never_answered
    (JobResponse : gmap string json → option (gmap string json))
    (json_loads : string → option json) (exn_text : exn → string)
    (requirements : JobRequest) (llm : nat → nat → Analyzer.reply) (k : nat)
    (experience : string) (data : LinkedIn.EventData) :
  LinkedIn.insights data ≠ [] →
  Forall (λ job,
            accepted JobResponse
              (entry_of json_loads exn_text requirements llm k
                 (<["source" := JStr "linkedin"]> job)) = None)
    (linkedin_job experience data).
Proof.
  intros Hsome. unfold linkedin_job, LinkedIn.on_data.
  cbn [Nat.ltb Nat.leb LinkedIn.max_jobs fst app].
  constructor; [|constructor]. unfold accepted.
  destruct (LinkedIn.insights data) as [|x xs] eqn:Hins; [done|].
  rewrite (ResponseFacts.job_response_experience _ _
             (JArr (JStr <$> x :: xs))); [done| |done|done].
  destruct (EntryFacts.entry_of_fields json_loads exn_text requirements llm k
              (<["source" := JStr "linkedin"]>
                 (<["title" := JStr (LinkedIn.title data)]>
                 (<["company" := JStr (LinkedIn.company data)]>
                 (<["experience" := JArr (JStr <$> x :: xs)]>
                 (<["location" := JStr (LinkedIn.place data)]>
                 (<["apply_link" := JStr (LinkedIn.link data)]>
                 (<["description" := JStr (LinkedIn.description data)]>
                 (<["salary" := JStr ""]>
                 (<["jobNature" := JStr "onsite"]> ∅))))))))))
    as [Hkeep _].
  rewrite Hkeep by done. reflexivity.
Qed.

Lemma linkedin_insights_never_answered_witness :
  Forall (λ job,
            accepted accept_all
              (entry_of loads_sample (λ _, "error") sample_request llm_sample 0
                 (<["source" := JStr "linkedin"]> job)) = None)
    (linkedin_job "2 years" with_insights).
Proof. apply linkedin_insights_never_answered. discriminate. Defined.

Section Answer.
Variable json_loads : string → option json.
Variable exn_text : exn → string.
Variable JobResponse : gmap string json → option (gmap string json).
Variable timestamp : string.
Variable write_file : string → list (gmap string json) → option exn.

(** X18.  When everything up to the analysis went well and the file with the
    results cannot be written, the request fails with status 500 and the text
    of that error: the jobs are found and analysed, and the answer is lost. *)
Theorem search_jobs_write_failure (w : Main.world) (fuel : nat)
    (request : JobRequest) (url : string)
    (all analyzed : list (gmap string json)) (tr : list event) (e : exn) :
  ollama_url w = Some url →
  Analyzer.test_connection (probe w) = true →
  collect_jobs w fuel request = Some (Ok all, tr) →
  Analyzer.analyze_jobs_batch json_loads exn_text all request (llm w) (running w)
    = Ok analyzed →
  write_file (filename timestamp (position request))
    (omap (accepted JobResponse) analyzed) = Some e →
  is_Exception e = true →
  search_jobs json_loads exn_text
    (respond JobResponse timestamp write_file (position request)) w fuel request
  = Some (Raise (HTTPException 500 (exn_text e)), EvProbe :: tr).
Proof.
  intros Hurl Hprobe Hcollect Hanalyze Hwrite He.
  unfold search_jobs, respond, mbind, ret, emit, throw, lift, after.
  rewrite Hurl, Hprobe. cbv beta iota. cbn [negb]. rewrite Hcollect.
  cbv beta iota. rewrite Hanalyze. cbv beta iota.
  rewrite ResponseFacts.convert_loop_omap. cbn [bind app]. rewrite Hwrite.
  unfold try_except. rewrite He. unfold throw, after.
  by rewrite !app_nil_r.
Qed.

Lemma omap_length_le {B C : Type} (f : B → option C) (l : list B) :
  length (omap f l) ≤ length l.
Proof.
  induction l as [|x l IH]; [done|].
  change (omap f (x :: l))
    with (match f x with Some y => y :: omap f l | None => omap f l end).
  destruct (f x); simpl; lia.
Qed.

(** X19.  An answer of [search_jobs] never has more than thirty jobs: each
    adapter contributes at most ten, the analysis adds none, and the
    conversion only leaves jobs out. *)
Theorem search_jobs_at_most_thirty (w : Main.world) (fuel : nat)
    (request : JobRequest) (out : list (gmap string json)) (tr : list event) :
  search_jobs json_loads exn_text
    (respond JobResponse timestamp write_file (position request)) w fuel request
  = Some (Ok out, tr) →
  length out ≤ 30.
Proof.
  unfold search_jobs, respond.
  destruct (ollama_url w); [|done]. simpl.
  destruct (Analyzer.test_connection (probe w)); [|done]. simpl.
  destruct (collect_jobs w fuel request) as [[[all|e] trc]|] eqn:Hcollect;
    simpl; [| |done].
  2:{ by destruct (is_Exception e). }
  apply MergeProperties.collect_jobs_length in Hcollect.
  destruct (Analyzer.analyze_jobs_batch _ _ _ _ _ _) as [analyzed|e] eqn:Hanalyze;
    simpl.
  2:{ by destruct (is_Exception e). }
  apply BatchProperties.analyze_jobs_batch_length in Hanalyze.
  rewrite ResponseFacts.convert_loop_omap. simpl.
  destruct (write_file _ _) as [e|]; simpl.
  { by destruct (is_Exception e). }
  intros [= <- _].
  pose proof (omap_length_le (accepted JobResponse) analyzed). lia.
Qed.

End Answer.

Lemma search_jobs_write_failure_witness :
  search_jobs loads_sample (λ _, "error")
    (respond accept_all "20250421_120000" disk_full
       (position (request ["linkedin"])))
    (world reply_150) 6 (request ["linkedin"])
  = Some (Raise (HTTPException 500 "error"), [EvProbe; EvAdapter "linkedin"]).
Proof.
  eapply (search_jobs_write_failure loads_sample (λ _, "error") accept_all
            "20250421_120000" disk_full (world reply_150) 6
            (request ["linkedin"]) "http://localhost:11434"
            [linkedin_tagged]
            [<["matched_skills" := JArr []]>
               (<["relevance_score" := JInt 150]> linkedin_tagged)]
            [EvAdapter "linkedin"] (OtherError "No space left on device"));
    reflexivity.
Defined.

Lemma search_jobs_at_most_thirty_witness : length [linkedin_answer] ≤ 30.
Proof.
  apply (search_jobs_at_most_thirty loads_sample (λ _, "error") accept_all
           "20250421_120000" disk_fine (world reply_150) 6
           (request ["linkedin"]) _ [EvProbe; EvAdapter "linkedin"]).
  reflexivity.
Defined.

End AnswerProperties.

(** ** The address of the endpoint *)

Module SetupProperties.
Import Setup Terms StringFacts.

Lemma rstrip_snoc (c : ascii) (s : string) :
  rstrip c (s +:+ String c "") = rstrip c s.
Proof.
  induction s as [|a s IH].
  - rewrite string_app_nil_l. simpl. by rewrite Ascii.eqb_refl.
  - rewrite string_app_cons. cbn [rstrip]. by rewrite IH.
Qed.

Lemma rstrip_repeated (c : ascii) (n : nat) (s : string) :
  rstrip c (s +:+ repeated c n) = rstrip c s.
Proof.
  revert s. induction n as [|n IH]; intros s; simpl.
  - by rewrite string_app_nil_r.
  - change (String c (repeated c n)) with (String c "" +:+ repeated c n).
    by rewrite <-string_app_assoc, IH, rstrip_snoc.
Qed.

(** X20.  The address the analyzer posts to is the configured address
    without its trailing slashes, followed by "/api/chat": the configured
    address is that base followed by slashes only, the base does not end
    with a slash, and adding slashes to the configured address changes
    nothing. *)
Theorem chat_url_ignores_trailing_slashes (ngrok_url : string) :
  (∃ n, ngrok_url = api_url ngrok_url +:+ repeated "/" n)
  ∧ (∀ t, api_url ngrok_url ≠ t +:+ "/")
  ∧ (∀ n, chat_url (ngrok_url +:+ repeated "/" n) = chat_url ngrok_url).
Proof.
  unfold chat_url, api_url.
  destruct (SetupFacts.rstrip_split "/" ngrok_url) as (n & Hsplit & Hend).
  split_and!.
  - by exists n.
  - exact Hend.
  - intros m. by rewrite rstrip_repeated.
Qed.

End SetupProperties.

(** ** Failures of the adapters, seen from [search_jobs] *)

Module FailSoftProperties.
Import Main Spec Normalizer Samples Cases.

Lemma get_jobs_raises (src : string) (scraper : M (list (gmap string json)))
    (e : exn) (tr : list event) :
  get_jobs src scraper = Some (Raise e, tr) → is_Exception e = false.
Proof.
  unfold get_jobs, try_except, mbind, emit, after, lift, ret.
  destruct scraper as [[[scraped|e'] tr0]|]; simpl; [| |done].
  - destruct (tag src scraped) as [tagged_jobs|e'] eqn:Htag; simpl; [done|].
    destruct (is_Exception e') eqn:He; [done|]. by intros [= <- <-].
  - destruct (is_Exception e') eqn:He; [done|]. by intros [= <- <-].
Qed.

(** X21.  No failure of an adapter fails the collection of the jobs: what
    [collect_jobs] raises, if anything, is no [Exception] (an interrupt or
    an exit), since each adapter entry point of main.py answers an
    [Exception] of its scraper, or a job that already carries a source, with
    the empty list. *)
Theorem collect_jobs_fail_soft (w : Main.world) (fuel : nat) (request : JobRequest)
    (e : exn) (tr : list event) :
  collect_jobs w fuel request = Some (Raise e, tr) → is_Exception e = false.
Proof.
  unfold collect_jobs, mbind, after, ret, emit. intros Hrun.
  destruct (wanted "indeed" request);
    [destruct (get_indeed_jobs w fuel request) as [[[a|e1] ?]|] eqn:Ha;
     [|injection Hrun as <- <-; by apply get_jobs_raises in Ha|done]|];
    cbv beta iota in Hrun.
  all: destruct (wanted "linkedin" request);
    [destruct (get_linkedin_jobs w request) as [[[b|e2] ?]|] eqn:Hb;
     [|injection Hrun as <- <-; by apply get_jobs_raises in Hb|done]|];
    cbv beta iota in Hrun.
  all: destruct (wanted "rozee" request);
    [destruct (get_rozee_jobs w fuel request) as [[[c|e3] ?]|] eqn:Hc;
     [|injection Hrun as <- <-; by apply get_jobs_raises in Hc|done]|];
    cbv beta iota in Hrun.
  all: done.
Qed.

Lemma collect_jobs_fail_soft_witness : is_Exception KeyboardInterrupt = false.
Proof.
  apply (collect_jobs_fail_soft interrupted_world 6 (request ["linkedin"; "rozee"])
           KeyboardInterrupt [EvAdapter "linkedin"]).
  reflexivity.
Defined.

(** X22.  [get_job_description] lets no [Exception] out: it gives the text
    of the description block, or one of two fixed texts when the page has no
    such block or cannot be fetched, and for those two texts the experience
    of the job is "Not specified". *)
Theorem get_job_description_fallbacks (web : Indeed.site) (full_link : string) :
  match Indeed.get_job_description web full_link with
  | Ok description =>
      Indeed.description_page web full_link = Loaded (Some description)
      ∨ ((description = "No description available"
          ∨ description = "Error fetching description")
         ∧ extract_experience description = "Not specified")
  | Raise e => is_Exception e = false
  end.
Proof.
  unfold Indeed.get_job_description.
  destruct (Indeed.description_page web full_link) as [[description|]|e].
  - by left.
  - right. split; [by left|]. vm_compute. reflexivity.
  - destruct (is_Exception e) eqn:He; [|done].
    right. split; [by right|]. vm_compute. reflexivity.
Qed.

End FailSoftProperties.

(** ** Blanks in addresses and file names *)

Module BlankProperties.
Import Terms StringFacts.

Lemma has_char_app (c : ascii) (a b : string) :
  has_char c (a +:+ b) = has_char c a || has_char c b.
Proof.
  induction a as [|x a IH]; [done|]. rewrite string_app_cons. simpl.
  by rewrite IH, orb_assoc.
Qed.

(** Replacing a character leaves it only where the replacement brings it. *)
Lemma has_char_replace (c : ascii) (t s : string) :
  has_char c (replace_char c t s) = has_char c s && has_char c t.
Proof.
  induction s as [|a s IH]; simpl; [done|].
  destruct (Ascii.eqb a c) eqn:Hac; simpl.
  - rewrite has_char_app, IH. by destruct (has_char c t), (has_char c s).
  - by rewrite Hac, IH.
Qed.

(** X23.  A blank of the position or of the location never reaches the
    search address of the indeed adapter, the search address of the rozee
    adapter has a blank only if the city code has one, and the name of the
    results file has a blank only if the time stamp has one. *)
Theorem no_blank_from_position (position location city_code timestamp : string) :
  has_char " " (Indeed.search_url position location) = false
  ∧ has_char " " (Rozee.search_url position city_code) = has_char " " city_code
  ∧ has_char " " (Response.filename timestamp position) = has_char " " timestamp.
Proof.
  unfold Indeed.search_url, Rozee.search_url, Response.filename,
    Indeed.base_url, Rozee.base_url.
  rewrite !has_char_app, !has_char_replace. simpl.
  rewrite !andb_false_r. simpl. split_and!; [done|done|].
  by rewrite orb_false_r.
Qed.

End BlankProperties.
